(** * Mood of the Internet: the aggregation and scoring core (analytics.py)

    A shallow embedding of [src/analytics.py] and the properties its
    specification states about it.

    Data.  A pandas DataFrame of documents is a list of rows together with a
    flag telling whether the [topic] column exists.  A pandas Series indexed by
    labels (the result of [value_counts]) is an association list: it is
    ordered, and [idxmax] reads that order.  A DataFrame built from a list of
    dicts carries its column names, because [sort_values] looks the sort key
    up among them and raises [KeyError] when it is not there.

    Numbers.  The program computes in binary64.  The embedding is written once,
    over an interface [Number] of the arithmetic the code uses, and is read at
    two instances: [float] (Rocq's primitive binary64 numbers), which is the
    arithmetic the program runs and is used to evaluate it on concrete inputs,
    and [Q] (exact rationals), in which the universally quantified laws of
    the arithmetic are proved; properties that do not depend on the arithmetic
    are proved for every instance.  [round(x, 1)] on a numpy float is
    [rint(x * 10) / 10] with [rint] rounding halves to even; both instances
    share the same tie rule.  [round(x, 1)] on a Python float, which is what
    iterating over a Series yields, is the exact value rounded to one decimal
    and converted back; the two differ in binary64 and agree on rationals.

    Text.  The insights are f-strings; each is modelled by the template that
    is chosen and the values it embeds. *)

From Stdlib Require Import ZArith QArith Lqa Floats List String Ascii Bool Lia Permutation Sorted.
From Stdlib Require Import DecimalString.
Import ListNotations.

Set Warnings "-inexact-float".

Local Open Scope string_scope.
Local Open Scope Z_scope.

(** ** The arithmetic of the program *)

Class Number (num : Type) : Type := {
  of_int : Z -> num;
  add : num -> num -> num;
  sub : num -> num -> num;
  mul : num -> num -> num;
  div : num -> num -> num;
  ltb : num -> num -> bool;
  leb : num -> num -> bool;
  rint : num -> num;
  pyfloat_round1 : num -> num
}.

(** Round half to even, on an exact rational. *)
Definition Qrint (q : Q) : Z :=
  let n := Qnum q in
  let d := Zpos (Qden q) in
  let f := n / d in
  let r2 := 2 * (n mod d) in
  if r2 <? d then f
  else if d <? r2 then f + 1
  else if Z.even f then f else f + 1.

Definition Qltb (a b : Q) : bool := negb (Qle_bool b a).

#[export] Instance Number_Q : Number Q := {
  of_int := inject_Z;
  add := Qplus;
  sub := Qminus;
  mul := Qmult;
  div := Qdiv;
  ltb := Qltb;
  leb := Qle_bool;
  rint := fun q => inject_Z (Qrint q);
  pyfloat_round1 := fun q => Qdiv (inject_Z (Qrint (Qmult q (inject_Z 10)))) (inject_Z 10)
}.

(** Integers enter binary64 through the unsigned 63-bit conversion; the
    integers of the program are document counts and small constants. *)
Definition float_of_int (z : Z) : float :=
  match z with
  | Z0 => PrimFloat.zero
  | Zpos _ => PrimFloat.of_uint63 (Uint63.of_Z z)
  | Zneg p => PrimFloat.opp (PrimFloat.of_uint63 (Uint63.of_Z (Zpos p)))
  end.

(** [rint] on a binary64 number: a finite number is [m * 2^e] exactly; with
    [e >= 0] it is integral already, otherwise it is the rational
    [m / 2^(-e)], rounded by [Qrint]; the sign is put back afterwards. *)
Definition float_rint (x : float) : float :=
  match Prim2SF x with
  | S754_finite s m e =>
      match e with
      | Zneg k =>
          let r := float_of_int (Qrint (Zpos m # 2 ^ k)) in
          if s then PrimFloat.opp r else r
      | _ => x
      end
  | _ => x
  end.

(** The binary64 number nearest to [k / 10], with sign [s], for an integer
    [k >= 0]: the division of the exact integer by ten, rounded once. *)
Definition nearest_tenths (s : bool) (k : Z) : float :=
  match k with
  | Zpos p => SF2Prim (SFdiv prec emax (S754_finite s p 0) (S754_finite false 10 0))
  | _ => if s then PrimFloat.opp PrimFloat.zero else PrimFloat.zero
  end.

(** [round(x, 1)] on a Python float ([float.__round__] of CPython): the exact
    value of [x] is rounded to one decimal, halves to even, and the decimal
    obtained is converted back to the nearest binary64 number.  A finite
    number is [m * 2^e] exactly; with [e >= 0] it is integral and rounds to
    itself, as do zeros, infinities and NaN. *)
Definition float_round1 (x : float) : float :=
  match Prim2SF x with
  | S754_finite s m e =>
      match e with
      | Zneg k => nearest_tenths s (Qrint (Zpos m * 10 # 2 ^ k))
      | _ => x
      end
  | _ => x
  end.

#[export] Instance Number_float : Number float := {
  of_int := float_of_int;
  add := PrimFloat.add;
  sub := PrimFloat.sub;
  mul := PrimFloat.mul;
  div := PrimFloat.div;
  ltb := PrimFloat.ltb;
  leb := PrimFloat.leb;
  rint := float_rint;
  pyfloat_round1 := float_round1
}.

(** ** Python and pandas primitives *)

(** A raised exception, or a returned value. *)
Inductive exn : Type :=
| KeyError (key : string).

Inductive result (A : Type) : Type :=
| Returns (a : A)
| Raises (e : exn).

Arguments Returns {A} a.
Arguments Raises {A} e.

(** [unique()]: the distinct values in order of first appearance. *)
Fixpoint unique_from {A} (eqb : A -> A -> bool) (seen l : list A) : list A :=
  match l with
  | [] => []
  | x :: t =>
      if existsb (eqb x) seen then unique_from eqb seen t
      else x :: unique_from eqb (x :: seen) t
  end.

Definition unique {A} (eqb : A -> A -> bool) (l : list A) : list A :=
  unique_from eqb [] l.

Definition count_label (l : list string) (x : string) : nat :=
  count_occ string_dec l x.

(** Insertion sort by a key, largest key first.  Equal keys stay in their
    order of arrival; pandas sorts with quicksort, which promises no order
    among equal keys, so the order of ties is this model's choice. *)
Fixpoint insert_desc {A} (key : A -> nat) (a : A) (l : list A) : list A :=
  match l with
  | [] => [a]
  | b :: t =>
      if (key a <? key b)%nat then b :: insert_desc key a t
      else a :: b :: t
  end.

Definition sort_desc {A} (key : A -> nat) (l : list A) : list A :=
  fold_right (insert_desc key) [] l.

(** A DataFrame built from a list of records: its column names and its rows. *)
Record Frame (A : Type) : Type := {
  columns : list string;
  records : list A
}.

Arguments columns {A} f.
Arguments records {A} f.

(** [frame.sort_values(by, ascending=False)], with [key] reading column [by]:
    a column that does not exist is a [KeyError].  The order among equal keys
    is not used by any property below. *)
Definition sort_values_desc {A} (fr : Frame A) (by_ : string) (key : A -> nat)
  : result (Frame A) :=
  if existsb (String.eqb by_) (columns fr)
  then Returns {| columns := columns fr; records := sort_desc key (records fr) |}
  else Raises (KeyError by_).

(** [value_counts()]: each distinct label with its count, most frequent
    first.  The order among equal counts is not used by any property below. *)
Definition value_counts (labels : list string) : list (string * nat) :=
  sort_desc snd (map (fun x => (x, count_label labels x)) (unique String.eqb labels)).

(** [max(a, b)] and [min(a, b)] of Python keep the first argument unless the
    second is strictly better. *)
Definition py_max {num} `{Number num} (a b : num) : num :=
  if ltb a b then b else a.

Definition py_min {num} `{Number num} (a b : num) : num :=
  if ltb b a then b else a.

(** [round(x, 1)] on a numpy float ([np.float64.__round__]): scale, [rint],
    scale back.  On a Python float [round(x, 1)] is [pyfloat_round1]. *)
Definition round1 {num} `{Number num} (x : num) : num :=
  div (rint (mul x (of_int 10))) (of_int 10).

(** The literal [0.3]: the decimal correctly rounded. *)
Definition lit_0_3 {num} `{Number num} : num := div (of_int 3) (of_int 10).

Section Series.
Context {num : Type} `{Number num}.

Definition Series : Type := list (string * num).

(** [s.get(key, default)] *)
Fixpoint get (s : Series) (key : string) (default : num) : num :=
  match s with
  | [] => default
  | (k, v) :: t => if String.eqb k key then v else get t key default
  end.

Definition values (s : Series) : list num := map snd s.

(** [s.max()], [s.min()] and [s.idxmax()] on a series with first entry
    [(k, v)] and remaining entries [t]; [idxmax] keeps the first maximum. *)
Definition series_max (v : num) (t : Series) : num :=
  fold_left (fun acc x => if ltb acc x then x else acc) (values t) v.

Definition series_min (v : num) (t : Series) : num :=
  fold_left (fun acc x => if ltb x acc then x else acc) (values t) v.

Definition series_idxmax (k : string) (v : num) (t : Series) : string :=
  fst (fold_left (fun acc kv => if ltb (snd acc) (snd kv) then kv else acc) t (k, v)).

(** [labels.value_counts(normalize=True) * 100] *)
Definition value_counts_pct (labels : list string) : Series :=
  let total := Z.of_nat (List.length labels) in
  map (fun lc => (fst lc,
                  mul (div (of_int (Z.of_nat (snd lc))) (of_int total)) (of_int 100)))
      (value_counts labels).

End Series.

Arguments Series num : clear implicits.

(** ** The documents *)

Record Doc : Type := {
  sentiment : string;
  emotion : string;
  topic : Z
}.

(** [has_topic] tells whether ["topic"] is among [df.columns]; without the
    column the [topic] fields of the rows are not read. *)
Record DataFrame : Type := {
  has_topic : bool;
  rows : list Doc
}.

(** One row of the topic table of the topic model: [row["Topic"]] and
    [row["Name"]]. *)
Record TopicRow : Type := {
  Topic : Z;
  Name : string
}.

(** The topic table.  [has_name] tells whether ["Name"] is among its columns:
    [row.get("Name", default)] gives the default exactly when the table has
    no such column, and then the [Name] fields of the rows are not read.  A
    table with the column holds a name in every row, as the topic model
    delivers it. *)
Record TopicInfo : Type := {
  has_name : bool;
  topic_rows : list TopicRow
}.

(** [df[df["topic"] == topic_id]] *)
Definition select_topic (df : DataFrame) (topic_id : Z) : list Doc :=
  filter (fun d => topic d =? topic_id) (rows df).

(** [(docs["sentiment"] == label).sum()] *)
Definition count_sentiment (docs : list Doc) (label : string) : nat :=
  List.length (filter (fun d => String.eqb (sentiment d) label) docs).

(** Insertion sort of labels in increasing order, as [np.sort] on strings. *)
Fixpoint insert_label (a : string) (l : list string) : list string :=
  match l with
  | [] => [a]
  | b :: t => if String.leb a b then a :: b :: t else b :: insert_label a t
  end.

Definition sort_labels (l : list string) : list string :=
  fold_right insert_label [] l.

Definition max_count (labels : list string) : nat :=
  fold_right Nat.max 0%nat (map (count_label labels) labels).

(** [labels.mode()]: the labels of highest count, sorted. *)
Definition mode (labels : list string) : list string :=
  sort_labels
    (filter (fun x => (count_label labels x =? max_count labels)%nat)
            (unique String.eqb labels)).

(** [f"Topic {topic_id}"] *)
Definition default_topic_name (topic_id : Z) : string :=
  "Topic " ++ NilZero.string_of_int (Z.to_int topic_id).

Section Analytics.
Context {num : Type} `{Number num}.

Record CorrelationEntry : Type := {
  ce_topic : Z;
  ce_emotion : string;
  ce_percentage : num
}.

Record TopicSummary : Type := {
  topic_id : Z;
  narrative : string;
  document_count : nat;
  sentiment_score : num;
  dominant_emotion : string;
  positive_pct : num;
  negative_pct : num
}.

(** [pd.DataFrame(narratives)]: the columns are the keys of the dicts, and a
    frame built from an empty list has no columns. *)
Definition summary_columns : list string :=
  ["topic_id"; "narrative"; "document_count"; "sentiment_score";
   "dominant_emotion"; "positive_pct"; "negative_pct"].

Definition pd_DataFrame (narratives : list TopicSummary) : Frame TopicSummary :=
  {| columns := match narratives with [] => [] | _ :: _ => summary_columns end;
     records := narratives |}.

(** The statements of [get_insights]: the f-string that is chosen and the
    values it embeds. *)
Inductive Insight : Type :=
| HighlyPositiveMood (mood : num)
| ModeratelyPositive (mood : num)
| MixedSentiment (mood : num)
| NegativeMood (mood : num)
| StrongEmotionalSignal (dominant : string) (strength : num)
| DiverseEmotions
| SampleSize (total_analyzed : nat)
| TopNarrative (name : string) (count : nat) (score : num).

Inductive InsightKind : Type := MoodTier | EmotionDominance | Volume | TopicInsight.

Definition kind_of (i : Insight) : InsightKind :=
  match i with
  | HighlyPositiveMood _ | ModeratelyPositive _ | MixedSentiment _ | NegativeMood _ => MoodTier
  | StrongEmotionalSignal _ _ | DiverseEmotions => EmotionDominance
  | SampleSize _ => Volume
  | TopNarrative _ _ _ => TopicInsight
  end.

(** *** analytics.py *)

Definition compute_distributions (df : DataFrame) : Series num * Series num :=
  let sentiment_pct := value_counts_pct (map sentiment (rows df)) in
  let emotion_pct := value_counts_pct (map emotion (rows df)) in
  (sentiment_pct, emotion_pct).

Definition neg_emotions : list string := ["anger"; "disgust"; "fear"; "sadness"].

Definition mood_score (sentiment_pct emotion_pct : Series num) : num :=
  let positive := get sentiment_pct "POSITIVE" (of_int 0) in
  let negative := get sentiment_pct "NEGATIVE" (of_int 0) in
  let emotion_penalty :=
    div (fold_left add (map (fun e => get emotion_pct e (of_int 0)) neg_emotions) (of_int 0))
        (of_int 4) in
  let base_score := sub positive negative in
  let adjusted_score := sub base_score (mul emotion_penalty lit_0_3) in
  let final_score :=
    py_max (of_int 0) (py_min (of_int 100) (add (of_int 50) (div adjusted_score (of_int 2)))) in
  round1 final_score.

Definition volatility_index (emotion_pct : Series num) : num :=
  match emotion_pct with
  | [] => of_int 0
  | (_, v) :: t =>
      let concentration := div (sub (series_max v t) (series_min v t)) (of_int 100) in
      let volatility := mul (of_int 100) (sub (of_int 1) concentration) in
      round1 volatility
  end.

(** [emotion_dist.items()] hands each percentage over as a Python float, so
    the [round(pct, 1)] of the loop is the one of Python floats. *)
Definition topic_emotion_correlation (df : DataFrame) : option (list CorrelationEntry) :=
  if negb (has_topic df) then None
  else
    Some (flat_map
            (fun topic_id =>
               if topic_id =? -1 then []
               else
                 let topic_df := select_topic df topic_id in
                 let emotion_dist := value_counts_pct (map emotion topic_df) in
                 map (fun ep => {| ce_topic := topic_id;
                                   ce_emotion := fst ep;
                                   ce_percentage := pyfloat_round1 (snd ep) |})
                     emotion_dist)
            (unique Z.eqb (map topic (rows df)))).

(** The body of the loop of [detect_narratives] for one row of the topic
    table: the summaries it appends. *)
Definition narrative_of (df : DataFrame) (named : bool) (row : TopicRow)
  : list TopicSummary :=
  let topic_id := Topic row in
  if topic_id =? -1 then []
  else
    let topic_docs := select_topic df topic_id in
    if (List.length topic_docs =? 0)%nat then []
    else
      let topic_name :=
        if named then Name row else default_topic_name topic_id in
      let pos_count := Z.of_nat (count_sentiment topic_docs "POSITIVE") in
      let neg_count := Z.of_nat (count_sentiment topic_docs "NEGATIVE") in
      let total := Z.of_nat (List.length topic_docs) in
      let sentiment_ratio :=
        if 0 <? total then div (of_int (pos_count - neg_count)) (of_int total)
        else of_int 0 in
      let dominant_emotion :=
        if (0 <? List.length topic_docs)%nat
        then hd "neutral" (mode (map emotion topic_docs))
        else "neutral" in
      [ {| topic_id := topic_id;
           narrative := topic_name;
           document_count := List.length topic_docs;
           sentiment_score := round1 (mul sentiment_ratio (of_int 100));
           dominant_emotion := dominant_emotion;
           positive_pct :=
             if 0 <? total
             then round1 (mul (div (of_int pos_count) (of_int total)) (of_int 100))
             else of_int 0;
           negative_pct :=
             if 0 <? total
             then round1 (mul (div (of_int neg_count) (of_int total)) (of_int 100))
             else of_int 0 |} ].

Definition detect_narratives (df : DataFrame) (topic_info : option TopicInfo)
  : result (option (Frame TopicSummary)) :=
  match has_topic df, topic_info with
  | true, Some info =>
      let narratives := flat_map (narrative_of df (has_name info)) (topic_rows info) in
      match sort_values_desc (pd_DataFrame narratives) "document_count" document_count with
      | Returns fr => Returns (Some fr)
      | Raises e => Raises e
      end
  | _, _ => Returns None
  end.

Definition get_insights (df : DataFrame) (sentiment_pct emotion_pct : Series num)
  (mood : num) (narratives : option (Frame TopicSummary)) : list Insight :=
  let mood_insight :=
    if leb (of_int 70) mood then HighlyPositiveMood mood
    else if leb (of_int 50) mood then ModeratelyPositive mood
    else if leb (of_int 30) mood then MixedSentiment mood
    else NegativeMood mood in
  let dominant_emotion :=
    match emotion_pct with [] => "neutral" | (k, v) :: t => series_idxmax k v t end in
  let emotion_strength :=
    match emotion_pct with [] => of_int 0 | (_, v) :: t => series_max v t end in
  let emotion_insight :=
    if ltb (of_int 40) emotion_strength
    then StrongEmotionalSignal dominant_emotion emotion_strength
    else DiverseEmotions in
  let total_analyzed := List.length (rows df) in
  let topic_insight :=
    match narratives with
    | Some fr =>
        match records fr with
        | top_narrative :: _ =>
            [TopNarrative (narrative top_narrative) (document_count top_narrative)
                          (sentiment_score top_narrative)]
        | [] => []
        end
    | None => []
    end in
  [mood_insight; emotion_insight; SampleSize total_analyzed] ++ topic_insight.

End Analytics.

Arguments CorrelationEntry num : clear implicits.
Arguments TopicSummary num : clear implicits.
Arguments Insight num : clear implicits.

(** ** What the specification says, where it is compared with the code *)

Section Specification.
Context {num : Type} `{Number num}.

(** The share of a label in a column: count divided by the number of rows,
    times 100, as [value_counts(normalize=True) * 100] computes it. *)
Definition percentage (labels : list string) (x : string) : num :=
  mul (div (of_int (Z.of_nat (count_label labels x)))
           (of_int (Z.of_nat (List.length labels))))
      (of_int 100).

(** [round((count / total) * 100, 1)]: a share of a topic's documents, as a
    percentage with one decimal. *)
Definition rounded_share (count total : nat) : num :=
  round1 (mul (div (of_int (Z.of_nat count)) (of_int (Z.of_nat total))) (of_int 100)).

(** The specification's Distribution entry: the share rounded to one decimal. *)
Definition spec_percentage (labels : list string) (x : string) : num :=
  round1 (percentage labels x).

End Specification.

(** The specification's tie-break for the dominant emotion: the first label
    whose running count, scanning the selection in order, reaches the highest
    count. *)
Fixpoint first_to_reach (m : nat) (seen rest : list string) : option string :=
  match rest with
  | [] => None
  | x :: t =>
      if (count_label (x :: seen) x =? m)%nat then Some x
      else first_to_reach m (x :: seen) t
  end.

Definition spec_dominant_emotion (labels : list string) : option string :=
  first_to_reach (max_count labels) [] labels.

(** The number of documents of the corpus bearing a topic id. *)
Definition documents_with_topic (df : DataFrame) (t : Z) : nat :=
  count_occ Z.eq_dec (map topic (rows df)) t.

(** ** Concrete corpora *)

Definition doc (s e : string) (t : Z) : Doc :=
  {| sentiment := s; emotion := e; topic := t |}.

(** Four documents, no topic column. *)
Definition scenario : DataFrame :=
  {| has_topic := false;
     rows := [doc "POSITIVE" "joy" (-1); doc "POSITIVE" "joy" (-1);
              doc "NEGATIVE" "anger" (-1); doc "NEUTRAL" "neutral" (-1)] |}.

(** Three documents with three different sentiments: a share of one third. *)
Definition thirds : DataFrame :=
  {| has_topic := false;
     rows := [doc "POSITIVE" "joy" (-1); doc "NEGATIVE" "anger" (-1);
              doc "NEUTRAL" "neutral" (-1)] |}.

(** A corpus the topic model left unclustered: every document is an outlier,
    and the topic table has the outlier row only. *)
Definition unclustered : DataFrame :=
  {| has_topic := true;
     rows := [doc "POSITIVE" "joy" (-1); doc "NEGATIVE" "anger" (-1)] |}.

Definition outlier_info : TopicInfo :=
  {| has_name := true;
     topic_rows := [ {| Topic := -1; Name := "-1_the_and_of" |} ] |}.

(** Three documents, all of them joyful. *)
Definition all_joy : DataFrame :=
  {| has_topic := false;
     rows := [doc "POSITIVE" "joy" (-1); doc "NEUTRAL" "joy" (-1);
              doc "POSITIVE" "joy" (-1)] |}.

(** One topic whose two documents carry different emotions. *)
Definition tied_emotions : DataFrame :=
  {| has_topic := true;
     rows := [doc "POSITIVE" "joy" 0; doc "NEGATIVE" "anger" 0] |}.

(** A topic table without a [Name] column. *)
Definition topic0_info : TopicInfo :=
  {| has_name := false;
     topic_rows := [ {| Topic := 0; Name := "" |} ] |}.

(** One topic of 80 documents: 31 positive and 49 negative. *)
Definition eighty : DataFrame :=
  {| has_topic := true;
     rows := (repeat (doc "POSITIVE" "joy" 0) 31
              ++ repeat (doc "NEGATIVE" "anger" 0) 49)%list |}.

(** Two topics and an outlier. *)
Definition two_topics : DataFrame :=
  {| has_topic := true;
     rows := [doc "POSITIVE" "joy" 0; doc "NEGATIVE" "anger" 1;
              doc "NEUTRAL" "neutral" (-1); doc "POSITIVE" "joy" 1] |}.

Definition two_topics_info : TopicInfo :=
  {| has_name := true;
     topic_rows := [ {| Topic := -1; Name := "-1_outliers" |};
                     {| Topic := 0; Name := "0_launch" |};
                     {| Topic := 1; Name := "1_refund" |} ] |}.

(** The same table without its [Name] column. *)
Definition two_topics_unnamed : TopicInfo :=
  {| has_name := false; topic_rows := topic_rows two_topics_info |}.

(** ** Auxiliary notions of the proofs *)

(** The head of a list of labels is below all its elements. *)
Definition head_least (l : list string) : Prop :=
  match l with
  | [] => True
  | h :: _ => forall x, In x l -> String.leb h x = true
  end.

(** The score of [mood_score] before clamping and rounding, on rationals. *)
Definition mood_raw (positive negative : Q) (e : Series Q) : Q :=
  (50 + (positive - negative
         - (0 + get e "anger" 0 + get e "disgust" 0 + get e "fear" 0 + get e "sadness" 0) / 4
           * (3 / 10)) / 2)%Q.

(** ** Further notions used to state properties of the code *)

(** The sum of a column of exact percentages. *)
Definition Qsum (l : list Q) : Q := fold_right Qplus 0%Q l.

(** The sum [mood_score] takes over the four negative emotions. *)
Definition negative_emotion_total (e : Series Q) : Q :=
  (0 + get e "anger" 0 + get e "disgust" 0 + get e "fear" 0 + get e "sadness" 0)%Q.

(** The number of documents of the corpus with a topic id and an emotion. *)
Definition documents_with_topic_emotion (df : DataFrame) (t : Z) (e : string) : nat :=
  List.length (filter (fun d => (topic d =? t) && String.eqb (emotion d) e) (rows df)).

(** [round((count / total) * 100, 1)] on a Python float: a share of a topic's
    documents as a percentage, its exact binary64 value rounded to one
    decimal. *)
Definition pyfloat_rounded_share {num} `{Number num} (count total : nat) : num :=
  pyfloat_round1
    (mul (div (of_int (Z.of_nat count)) (of_int (Z.of_nat total))) (of_int 100)).

(** A topic of 2000 documents of which 3 are angry: the share of anger is
    0.15 percent, which binary64 holds as a number just below 0.15. *)
Definition two_thousand : DataFrame :=
  {| has_topic := true;
     rows := (repeat (doc "POSITIVE" "joy" 0) 1997
              ++ repeat (doc "NEGATIVE" "anger" 0) 3)%list |}.

(** The number of documents of the corpus with a topic id and a sentiment. *)
Definition documents_with_topic_sentiment (df : DataFrame) (t : Z) (s : string) : nat :=
  List.length (filter (fun d => (topic d =? t) && String.eqb (sentiment d) s) (rows df)).

(** A list in non-increasing order of a key. *)
Definition sorted_desc {A} (key : A -> nat) (l : list A) : Prop :=
  StronglySorted (fun a b => (key b <= key a)%nat) l.

(** *** ui_components.py *)

(** The local function [sentiment_emoji] of [render_narratives]: the status of
    a Topic Summary from its sentiment score. *)
Definition sentiment_emoji {num} `{Number num} (score : num) : string :=
  if ltb (of_int 50) score then "🟢"
  else if ltb (of_int 0) score then "🟡"
  else if ltb (of_int (-50)) score then "🟠"
  else "🔴".

(** *** app.py: the analytics step *)

Section AnalysisStep.
Context {num : Type} `{Number num}.

(** What the analytics step of [app.py] stores in the session. *)
Record Analysis : Type := {
  an_sentiment_pct : Series num;
  an_emotion_pct : Series num;
  an_mood : num;
  an_volatility : num;
  an_correlation_df : option (list (CorrelationEntry num));
  an_narratives_df : option (Frame (TopicSummary num));
  an_insights : list (Insight num)
}.

(** Step 4 of the analysis and the insights that follow it: the
    Distributions and the two scores, then, when topics are enabled and a
    topic table exists, the correlation table and the narratives, then the
    insights. *)
Definition analysis_step (df : DataFrame) (enable_topics : bool)
  (topic_info : option TopicInfo) : result Analysis :=
  let sentiment_pct := fst (compute_distributions df) in
  let emotion_pct := snd (compute_distributions df) in
  let mood := mood_score sentiment_pct emotion_pct in
  let volatility := volatility_index emotion_pct in
  let advanced :=
    if enable_topics && (match topic_info with Some _ => true | None => false end)
    then
      let correlation_df := topic_emotion_correlation df in
      match detect_narratives df topic_info with
      | Returns narratives_df => Returns (correlation_df, narratives_df)
      | Raises e => Raises e
      end
    else Returns (None, None) in
  match advanced with
  | Returns (correlation_df, narratives_df) =>
      let insights := get_insights df sentiment_pct emotion_pct mood narratives_df in
      Returns {| an_sentiment_pct := sentiment_pct;
                 an_emotion_pct := emotion_pct;
                 an_mood := mood;
                 an_volatility := volatility;
                 an_correlation_df := correlation_df;
                 an_narratives_df := narratives_df;
                 an_insights := insights |}
  | Raises e => Raises e
  end.

End AnalysisStep.

Arguments Analysis num : clear implicits.

(** *** app.py: the pasted text *)

(** A Python [str] is a sequence of code points. *)
Definition codepoint : Type := N.
Definition pystr : Type := list codepoint.

Definition newline : codepoint := 10%N.

(** The code points [str.strip()] removes: the whitespace of Unicode as
    CPython tabulates it. *)
Definition whitespace_codepoints : list codepoint :=
  [9; 10; 11; 12; 13; 28; 29; 30; 31; 32; 133; 160; 5760;
   8192; 8193; 8194; 8195; 8196; 8197; 8198; 8199; 8200; 8201; 8202;
   8232; 8233; 8239; 8287; 12288]%N.

Definition py_isspace (c : codepoint) : bool :=
  existsb (N.eqb c) whitespace_codepoints.

Fixpoint lstrip (s : pystr) : pystr :=
  match s with
  | [] => []
  | c :: t => if py_isspace c then lstrip t else s
  end.

Definition rstrip (s : pystr) : pystr := rev (lstrip (rev s)).

(** [s.strip()] *)
Definition strip (s : pystr) : pystr := rstrip (lstrip s).

(** [s.split("\n")]: the pieces between the newlines; an empty string gives
    one empty piece. *)
Fixpoint split_lines (s : pystr) : list pystr :=
  match s with
  | [] => [[]]
  | c :: t =>
      if (c =? newline)%N then [] :: split_lines t
      else match split_lines t with
           | w :: ws => (c :: w) :: ws
           | [] => [[c]]
           end
  end.

Definition is_empty (s : pystr) : bool :=
  match s with [] => true | _ :: _ => false end.

(** [[t.strip() for t in raw_text.split("\n") if t.strip()]] *)
Definition paste_texts (raw_text : pystr) : list pystr :=
  map strip (filter (fun t => negb (is_empty (strip t))) (split_lines raw_text)).

(** ["\n".join(texts)], the text a user types to enter one text per line. *)
Fixpoint join_lines (texts : list pystr) : pystr :=
  match texts with
  | [] => []
  | [t] => t
  | t :: rest => (t ++ newline :: join_lines rest)%list
  end.

(** A text as [paste_texts] delivers it: not empty, on one line, without
    whitespace at either end. *)
Definition clean_text (t : pystr) : Prop :=
  t <> []
  /\ ~ In newline t
  /\ (forall c, hd_error t = Some c -> py_isspace c = false)
  /\ (forall c, hd_error (rev t) = Some c -> py_isspace c = false).

(** *** nlp_engine.py: the topic model of [NLPEngine] *)

Section TopicEngine.

(** The topic-model library is outside the repository: its model objects,
    tables and exceptions are parameters, and so are its operations, each of
    which returns or raises. *)
Variables Model Text Info Word Prob Err : Type.

Inductive Failure : Type :=
| NoneTypeError
| IndexError
| LibraryError (e : Err).

Inductive outcome (A : Type) : Type :=
| Done (a : A)
| Failed (f : Failure).

Arguments Done {A} a.
Arguments Failed {A} f.

(** [BERTopic(..., min_topic_size=min_topic_size, ...)] *)
Variable new_model : nat -> Model.
(** [model.fit_transform(texts)]: the model after the call, and the topics
    and probabilities it returns or the exception it raises. *)
Variable fit_transform : Model -> list Text -> Model * (list Z * list Prob + Err).
Variable model_get_topic_info : Model -> Info + Err.
Variable model_get_topic : Model -> Z -> list Word + Err.
Variable model_transform : Model -> list Text -> list Z * list Prob + Err.

(** The two attributes of [NLPEngine] the topic methods read and write. *)
Record Engine : Type := {
  topic_model : option Model;
  topics_fitted : bool
}.

(** [__init__] *)
Definition init_engine : Engine :=
  {| topic_model := None; topics_fitted := false |}.

Definition fit_topics (self : Engine) (texts : list Text) (min_topic_size : nat)
  : Engine * outcome (option (list Z * list Prob)) :=
  if (List.length texts <? min_topic_size)%nat then (self, Done None)
  else
    let model := new_model min_topic_size in
    match fit_transform model texts with
    | (model', inl (topics, probs)) =>
        ({| topic_model := Some model'; topics_fitted := true |},
         Done (Some (topics, probs)))
    | (model', inr e) =>
        ({| topic_model := Some model'; topics_fitted := topics_fitted self |},
         Failed (LibraryError e))
    end.

Definition get_topic_info (self : Engine) : outcome (option Info) :=
  if negb (topics_fitted self) then Done None
  else match topic_model self with
       | None => Failed NoneTypeError
       | Some model =>
           match model_get_topic_info model with
           | inl info => Done (Some info)
           | inr e => Failed (LibraryError e)
           end
       end.

Definition get_topic_words (self : Engine) (topic_id : Z) (top_n : nat)
  : outcome (list Word) :=
  if negb (topics_fitted self) then Done []
  else match topic_model self with
       | None => Failed NoneTypeError
       | Some model =>
           match model_get_topic model topic_id with
           | inl words => Done (firstn top_n words)
           | inr e => Failed (LibraryError e)
           end
       end.

(** The second component of [get_document_topic]: [prob[0]], or the literal
    [0.0]. *)
Inductive DocumentProb : Type :=
| FirstProb (p : Prob)
| ZeroProb.

Definition get_document_topic (self : Engine) (text : Text) : outcome (Z * DocumentProb) :=
  if negb (topics_fitted self) then Done (-1, ZeroProb)
  else match topic_model self with
       | None => Failed NoneTypeError
       | Some model =>
           match model_transform model [text] with
           | inl (topic, prob) =>
               match topic with
               | [] => Failed IndexError
               | t0 :: _ =>
                   Done (t0, match prob with p :: _ => FirstProb p | [] => ZeroProb end)
               end
           | inr e => Failed (LibraryError e)
           end
       end.

(** A call of [fit_topics], and the engine after a sequence of calls from
    [__init__]; the three getters leave the engine as it is. *)
Definition FitCall : Type := (list Text * nat)%type.

Definition after_calls (calls : list FitCall) : Engine :=
  fold_left (fun self call => fst (fit_topics self (fst call) (snd call))) calls init_engine.

(** The call gets past the size check. *)
Definition attempts (call : FitCall) : bool :=
  negb (List.length (fst call) <? snd call)%nat.

(** The call gets past the size check and the library fits the model. *)
Definition succeeds (call : FitCall) : bool :=
  attempts call
  && match snd (fit_transform (new_model (snd call)) (fst call)) with
     | inl _ => true
     | inr _ => false
     end.

End TopicEngine.

Arguments Done {Err A} a.
Arguments Failed {Err A} f.
Arguments NoneTypeError {Err}.
Arguments IndexError {Err}.
Arguments LibraryError {Err} e.
Arguments topic_model {Model} e.
Arguments topics_fitted {Model} e.
Arguments init_engine {Model}.
Arguments FirstProb {Prob} p.
Arguments ZeroProb {Prob}.
Arguments fit_topics {Model Text Prob Err} new_model fit_transform self texts min_topic_size.
Arguments get_topic_info {Model Info Err} model_get_topic_info self.
Arguments get_topic_words {Model Word Err} model_get_topic self topic_id top_n.
Arguments get_document_topic {Model Text Prob Err} model_transform self text.
Arguments after_calls {Model Text Prob Err} new_model fit_transform calls.
Arguments attempts {Text} call.
Arguments succeeds {Model Text Prob Err} new_model fit_transform call.

(** ** Rounding half to even on rationals *)

Section ExactArithmetic.
Local Open Scope Q_scope.

Lemma Qrint_cases (n : Z) (d : positive) :
  let z := Qrint (n # d) in
  ((2 * z - 1) * Zpos d < 2 * n < (2 * z + 1) * Zpos d)%Z
  \/ ((2 * n = (2 * z + 1) * Zpos d \/ 2 * n = (2 * z - 1) * Zpos d)%Z /\ Z.even z = true).
Proof.
  unfold Qrint; cbn [Qnum Qden].
  pose proof (Z.div_mod n (Zpos d) ltac:(lia)) as E.
  pose proof (Z.mod_pos_bound n (Zpos d) ltac:(lia)) as B.
  set (f := (n / Zpos d)%Z) in *. set (r := (n mod Zpos d)%Z) in *.
  destruct (Z.ltb_spec (2 * r) (Zpos d)); [left; nia|].
  destruct (Z.ltb_spec (Zpos d) (2 * r)); [left; nia|].
  assert (2 * r = Zpos d)%Z by lia.
  right. destruct (Z.even f) eqn:Ev.
  - split; [left; nia | assumption].
  - split; [right; nia|]. rewrite Z.even_add, Ev. reflexivity.
Qed.

Lemma Qrint_upper (q : Q) : inject_Z (Qrint q) <= q + (1 # 2).
Proof.
  destruct q as [n d]. pose proof (Qrint_cases n d) as C. cbv zeta in C.
  set (z := Qrint (n # d)) in *.
  unfold Qle, Qplus, inject_Z; cbn [Qnum Qden]. nia.
Qed.

Lemma Qrint_lower (q : Q) : q - (1 # 2) <= inject_Z (Qrint q).
Proof.
  destruct q as [n d]. pose proof (Qrint_cases n d) as C. cbv zeta in C.
  set (z := Qrint (n # d)) in *.
  unfold Qle, Qminus, Qplus, Qopp, inject_Z; cbn [Qnum Qden]. nia.
Qed.

Lemma Qrint_tie_up (q : Q) : inject_Z (Qrint q) == q + (1 # 2) -> Z.even (Qrint q) = true.
Proof.
  destruct q as [n d]. pose proof (Qrint_cases n d) as C. cbv zeta in C.
  set (z := Qrint (n # d)) in *.
  unfold Qeq, Qplus, inject_Z; cbn [Qnum Qden]. intros E.
  destruct C as [C | [_ C]]; [nia | exact C].
Qed.

Lemma Qrint_tie_down (q : Q) : inject_Z (Qrint q) == q - (1 # 2) -> Z.even (Qrint q) = true.
Proof.
  destruct q as [n d]. pose proof (Qrint_cases n d) as C. cbv zeta in C.
  set (z := Qrint (n # d)) in *.
  unfold Qeq, Qminus, Qplus, Qopp, inject_Z; cbn [Qnum Qden]. intros E.
  destruct C as [C | [_ C]]; [nia | exact C].
Qed.

Lemma inject_Z_succ_le (a b : Z) : (a < b)%Z -> inject_Z a + 1 <= inject_Z b.
Proof.
  intros L. unfold Qle, Qplus, inject_Z; cbn [Qnum Qden]. lia.
Qed.

Lemma even_succ_absurd (a b : Z) :
  Z.even a = true -> Z.even b = true -> b = (a + 1)%Z -> False.
Proof.
  intros Ea Eb ->. rewrite Z.even_add, Ea in Eb. discriminate.
Qed.

Lemma Qrint_mono (x y : Q) : x <= y -> (Qrint x <= Qrint y)%Z.
Proof.
  intros L. destruct (Z.le_gt_cases (Qrint x) (Qrint y)) as [|G]; [assumption|exfalso].
  pose proof (inject_Z_succ_le _ _ G) as S.
  pose proof (Qrint_upper x) as Ux. pose proof (Qrint_lower y) as Ly.
  assert (Ex : inject_Z (Qrint x) == x + (1 # 2)) by lra.
  assert (Ey : inject_Z (Qrint y) == y - (1 # 2)) by lra.
  assert (Exy : inject_Z (Qrint x) == inject_Z (Qrint y) + 1) by lra.
  apply (even_succ_absurd (Qrint y) (Qrint x)).
  - now apply Qrint_tie_down.
  - now apply Qrint_tie_up.
  - unfold Qeq, Qplus, inject_Z in Exy; cbn [Qnum Qden] in Exy. lia.
Qed.

Lemma Qrint_pair_sum (x y : Q) (N : Z) :
  x + y <= inject_Z N -> Z.even N = true -> (Qrint x + Qrint y <= N)%Z.
Proof.
  intros L EN. destruct (Z.le_gt_cases (Qrint x + Qrint y) N) as [|G]; [assumption|exfalso].
  pose proof (Qrint_upper x) as Ux. pose proof (Qrint_upper y) as Uy.
  assert (S : inject_Z N + 1 <= inject_Z (Qrint x) + inject_Z (Qrint y)).
  { rewrite <- inject_Z_plus. now apply inject_Z_succ_le. }
  assert (Ex : inject_Z (Qrint x) == x + (1 # 2)) by lra.
  assert (Ey : inject_Z (Qrint y) == y + (1 # 2)) by lra.
  assert (E : inject_Z (Qrint x) + inject_Z (Qrint y) == inject_Z N + 1) by lra.
  apply Qrint_tie_up in Ex. apply Qrint_tie_up in Ey.
  assert (Ev : Z.even (Qrint x + Qrint y) = true) by (rewrite Z.even_add, Ex, Ey; reflexivity).
  apply (even_succ_absurd N (Qrint x + Qrint y) EN Ev).
  rewrite <- inject_Z_plus in E.
  unfold Qeq, Qplus, inject_Z in E; cbn [Qnum Qden] in E. lia.
Qed.

Lemma Qrint_inject (z : Z) : Qrint (inject_Z z) = z.
Proof.
  unfold Qrint, inject_Z; cbn [Qnum Qden].
  rewrite Z.div_1_r, Z.mod_1_r. reflexivity.
Qed.

Lemma Qltb_lt (a b : Q) : Qltb a b = true <-> a < b.
Proof.
  unfold Qltb. rewrite negb_true_iff.
  split.
  - intros E. apply Qnot_le_lt. intros L. apply Qle_bool_iff in L. congruence.
  - intros L. destruct (Qle_bool b a) eqn:E; [|reflexivity].
    apply Qle_bool_iff in E. lra.
Qed.

Lemma Qltb_ge (a b : Q) : Qltb a b = false <-> b <= a.
Proof.
  unfold Qltb. rewrite negb_false_iff. apply Qle_bool_iff.
Qed.

Lemma round1_Q_eq (x : Q) : round1 x = inject_Z (Qrint (x * 10)) * (1 # 10).
Proof. reflexivity. Qed.

Lemma round1_Q_mono (x y : Q) : x <= y -> round1 x <= round1 y.
Proof.
  intros L. rewrite !round1_Q_eq.
  assert (M : (Qrint (x * 10) <= Qrint (y * 10))%Z) by (apply Qrint_mono; lra).
  rewrite Zle_Qle in M. lra.
Qed.

Lemma round1_Q_inject (z : Z) : round1 (inject_Z z) == inject_Z z.
Proof.
  rewrite round1_Q_eq.
  assert (E : Qrint (inject_Z z * 10) = (z * 10)%Z).
  { rewrite <- (Qrint_inject (z * 10)). reflexivity. }
  rewrite E, inject_Z_mult. change (inject_Z 10) with 10. lra.
Qed.

Lemma round1_Q_bounds (x : Q) : 0 <= x <= 100 -> 0 <= round1 x <= 100.
Proof.
  intros [L U]. split.
  - rewrite <- (round1_Q_inject 0). now apply round1_Q_mono.
  - rewrite <- (round1_Q_inject 100). now apply round1_Q_mono.
Qed.

Lemma py_max_Q (a b : Q) : a <= py_max a b /\ b <= py_max a b /\ (py_max a b = a \/ py_max a b = b).
Proof.
  unfold py_max; cbn [ltb Number_Q].
  destruct (Qltb a b) eqn:E.
  - apply Qltb_lt in E. repeat split; try lra. now right.
  - apply Qltb_ge in E. repeat split; try lra. now left.
Qed.

Lemma py_min_Q (a b : Q) : py_min a b <= a /\ py_min a b <= b /\ (py_min a b = a \/ py_min a b = b).
Proof.
  unfold py_min; cbn [ltb Number_Q].
  destruct (Qltb b a) eqn:E.
  - apply Qltb_lt in E. repeat split; try lra. now right.
  - apply Qltb_ge in E. repeat split; try lra. now left.
Qed.

(** The clamp [max(0, min(100, x))] on rationals. *)
Lemma clamp_Q_bounds (x : Q) : 0 <= py_max 0 (py_min 100 x) <= 100.
Proof.
  destruct (py_max_Q 0 (py_min 100 x)) as (A & B & [E | E]);
  destruct (py_min_Q 100 x) as (C & D & _); rewrite E in *; lra.
Qed.

Lemma clamp_Q_mono (x y : Q) : x <= y -> py_max 0 (py_min 100 x) <= py_max 0 (py_min 100 y).
Proof.
  intros L.
  destruct (py_max_Q 0 (py_min 100 x)) as (A & B & [E | E]);
  destruct (py_max_Q 0 (py_min 100 y)) as (A' & B' & [E' | E']);
  destruct (py_min_Q 100 x) as (C & D & [F | F]);
  destruct (py_min_Q 100 y) as (C' & D' & [F' | F']);
  rewrite ?E, ?E', ?F, ?F' in *; lra.
Qed.

Lemma mood_score_Q_eq (s e : Series Q) :
  mood_score s e
  = round1 (py_max 0 (py_min 100 (mood_raw (get s "POSITIVE" 0) (get s "NEGATIVE" 0) e))).
Proof. reflexivity. Qed.

Lemma mood_score_Q_mono (s s' e : Series Q) :
  get s "POSITIVE" 0 <= get s' "POSITIVE" 0 ->
  get s' "NEGATIVE" 0 <= get s "NEGATIVE" 0 ->
  mood_score s e <= mood_score s' e.
Proof.
  intros P N. rewrite !mood_score_Q_eq.
  apply round1_Q_mono, clamp_Q_mono. unfold mood_raw.
  generalize ((0 + get e "anger" 0 + get e "disgust" 0 + get e "fear" 0
               + get e "sadness" 0) / 4 * (3 / 10)).
  intros pen. unfold Qdiv. change (/ 2) with (1 # 2). lra.
Qed.

Lemma mood_score_Q_range (s e : Series Q) : 0 <= mood_score s e <= 100.
Proof.
  rewrite mood_score_Q_eq. apply round1_Q_bounds, clamp_Q_bounds.
Qed.

End ExactArithmetic.

(** ** Lists, counts and orders *)

Section Lists.
Local Open Scope nat_scope.

Section Unique.
Context {A : Type} (eqb : A -> A -> bool).
Hypothesis eqb_eq : forall a b, eqb a b = true <-> a = b.

Lemma existsb_eqb_In (x : A) (l : list A) : existsb (eqb x) l = true <-> In x l.
Proof.
  rewrite existsb_exists. split.
  - intros (y & Hy & E). apply eqb_eq in E. now subst.
  - intros Hx. exists x. split; [assumption | now apply eqb_eq].
Qed.

Lemma unique_from_In (x : A) (l seen : list A) :
  In x (unique_from eqb seen l) <-> In x l /\ ~ In x seen.
Proof.
  revert seen. induction l as [|a t IH]; intros seen; simpl.
  - tauto.
  - destruct (existsb (eqb a) seen) eqn:E.
    + apply existsb_eqb_In in E. rewrite IH. split.
      * intros [H1 H2]. tauto.
      * intros [[-> | H1] H2]; tauto.
    + assert (~ In a seen) as Na.
      { intros Hin. apply existsb_eqb_In in Hin. congruence. }
      simpl. rewrite IH. simpl. split.
      * intros [-> | [H1 H2]]; [tauto|]. split; [tauto|]. intros H3. apply H2. now right.
      * intros [[-> | H1] H2]; [now left|].
        destruct (existsb (eqb x) [a]) eqn:Ex.
        -- apply existsb_eqb_In in Ex. destruct Ex as [-> | []]. now left.
        -- right. split; [assumption|]. intros [-> | H3]; [|tauto].
           assert (existsb (eqb x) [x] = true) by (apply existsb_eqb_In; now left).
           congruence.
Qed.

Lemma unique_from_NoDup (l seen : list A) : NoDup (unique_from eqb seen l).
Proof.
  revert seen. induction l as [|a t IH]; intros seen; simpl.
  - constructor.
  - destruct (existsb (eqb a) seen); [apply IH|].
    constructor; [|apply IH].
    rewrite unique_from_In. intros [_ H]. apply H. now left.
Qed.

Lemma unique_In (x : A) (l : list A) : In x (unique eqb l) <-> In x l.
Proof. unfold unique. rewrite unique_from_In. simpl. tauto. Qed.

Lemma unique_NoDup (l : list A) : NoDup (unique eqb l).
Proof. apply unique_from_NoDup. Qed.

End Unique.

Lemma insert_desc_perm {A} (key : A -> nat) (a : A) (l : list A) :
  Permutation (insert_desc key a l) (a :: l).
Proof.
  induction l as [|b t IH]; simpl; [reflexivity|].
  destruct (key a <? key b); [|reflexivity].
  rewrite IH. apply perm_swap.
Qed.

Lemma sort_desc_perm {A} (key : A -> nat) (l : list A) : Permutation (sort_desc key l) l.
Proof.
  induction l as [|a t IH]; simpl; [reflexivity|].
  rewrite insert_desc_perm. now constructor.
Qed.

Lemma sort_desc_In {A} (key : A -> nat) (l : list A) (x : A) :
  In x (sort_desc key l) <-> In x l.
Proof.
  split; apply Permutation_in; [|symmetry]; apply sort_desc_perm.
Qed.

Lemma value_counts_In (labels : list string) (x : string) (c : nat) :
  In (x, c) (value_counts labels) <-> In x labels /\ c = count_label labels x.
Proof.
  unfold value_counts. rewrite sort_desc_In, in_map_iff. split.
  - intros (y & E & Hy). inversion E; subst.
    apply (proj1 (unique_In String.eqb String.eqb_eq _ _)) in Hy. now split.
  - intros [Hx ->]. exists x. split; [reflexivity|].
    now apply (unique_In String.eqb String.eqb_eq).
Qed.

Lemma value_counts_keys_NoDup (labels : list string) : NoDup (map fst (value_counts labels)).
Proof.
  unfold value_counts.
  eapply Permutation_NoDup.
  - symmetry. apply Permutation_map, sort_desc_perm.
  - rewrite map_map. simpl. rewrite map_id.
    apply (unique_NoDup String.eqb String.eqb_eq).
Qed.

Lemma string_leb_trans (a b c : string) :
  String.leb a b = true -> String.leb b c = true -> String.leb a c = true.
Proof.
  unfold String.leb. revert b c.
  induction a as [|x a IH]; intros [|y b] [|z c]; simpl; try congruence.
  unfold Ascii.compare.
  destruct (N.compare_spec (N_of_ascii x) (N_of_ascii y)) as [Exy | Lxy | Gxy];
  destruct (N.compare_spec (N_of_ascii y) (N_of_ascii z)) as [Eyz | Lyz | Gyz];
  try congruence.
  - rewrite Exy, Eyz, N.compare_refl. apply IH.
  - intros _ _. rewrite Exy. apply N.compare_lt_iff in Lyz. now rewrite Lyz.
  - intros _ _. rewrite <- Eyz. apply N.compare_lt_iff in Lxy. now rewrite Lxy.
  - intros _ _. assert (L : (N_of_ascii x < N_of_ascii z)%N) by lia.
    apply N.compare_lt_iff in L. now rewrite L.
Qed.

Lemma string_leb_refl (a : string) : String.leb a a = true.
Proof. destruct (String.leb_total a a); assumption. Qed.

Lemma insert_label_perm (a : string) (l : list string) :
  Permutation (insert_label a l) (a :: l).
Proof.
  induction l as [|b t IH]; simpl; [reflexivity|].
  destruct (String.leb a b); [reflexivity|].
  rewrite IH. apply perm_swap.
Qed.

Lemma sort_labels_perm (l : list string) : Permutation (sort_labels l) l.
Proof.
  induction l as [|a t IH]; simpl; [reflexivity|].
  rewrite insert_label_perm. now constructor.
Qed.

Lemma insert_label_head_least (a : string) (l : list string) :
  head_least l -> head_least (insert_label a l).
Proof.
  destruct l as [|b t]; simpl.
  - intros _ x [<- | []]. apply string_leb_refl.
  - intros Hb. destruct (String.leb a b) eqn:E; simpl.
    + intros x [<- | Hx]; [apply string_leb_refl|].
      apply (string_leb_trans a b x E). apply Hb. exact Hx.
    + intros x [<- | Hx]; [apply string_leb_refl|].
      apply (Permutation_in _ (insert_label_perm a t)) in Hx.
      destruct Hx as [<- | Hx].
      * destruct (String.leb_total b a); congruence.
      * apply Hb. now right.
Qed.

Lemma sort_labels_head_least (l : list string) : head_least (sort_labels l).
Proof.
  induction l as [|a t IH]; simpl; [exact I|].
  now apply insert_label_head_least.
Qed.

Lemma max_count_ge (labels : list string) (x : string) :
  In x labels -> count_label labels x <= max_count labels.
Proof.
  unfold max_count. generalize (count_label labels). intros f.
  induction labels as [|a t IH]; simpl; [tauto|].
  intros [-> | Hx]; [lia|]. specialize (IH Hx). lia.
Qed.

Lemma max_count_attained (labels : list string) :
  labels <> [] -> exists x, In x labels /\ count_label labels x = max_count labels.
Proof.
  unfold max_count. generalize (count_label labels). intros f.
  induction labels as [|a t IH]; [congruence|]. intros _.
  destruct t as [|b t'].
  - exists a. simpl. split; [now left | lia].
  - destruct IH as (x & Hx & E); [congruence|].
    simpl in *. destruct (Nat.max_spec (f a) (Nat.max (f b) (fold_right Nat.max 0 (map f t')))) as [[_ M] | [_ M]].
    + exists x. split; [now right | lia].
    + exists a. split; [now left | lia].
Qed.

Lemma mode_In (labels : list string) (x : string) :
  In x (mode labels) <-> In x labels /\ count_label labels x = max_count labels.
Proof.
  unfold mode. split.
  - intros Hx. apply (Permutation_in _ (sort_labels_perm _)) in Hx.
    apply filter_In in Hx. destruct Hx as [Hx E].
    apply (proj1 (unique_In String.eqb String.eqb_eq _ _)) in Hx.
    apply Nat.eqb_eq in E. now split.
  - intros [Hx E].
    apply (Permutation_in _ (Permutation_sym (sort_labels_perm _))).
    apply filter_In. split.
    + now apply (unique_In String.eqb String.eqb_eq).
    + now apply Nat.eqb_eq.
Qed.

(** [labels.mode()[0]] on a non-empty column: a most frequent label, and the
    least one in string order among the most frequent. *)
Lemma mode_head (labels : list string) :
  labels <> [] ->
  exists m rest, mode labels = m :: rest
    /\ In m labels
    /\ (forall x, In x labels -> count_label labels x <= count_label labels m)
    /\ (forall x, In x labels -> count_label labels x = count_label labels m ->
                  String.leb m x = true).
Proof.
  intros Hne. destruct (max_count_attained labels Hne) as (w & Hw & Ew).
  assert (Hin : In w (mode labels)) by (apply mode_In; now split).
  destruct (mode labels) as [|m rest] eqn:Em; [destruct Hin|].
  assert (Hm : In m (mode labels)) by (rewrite Em; now left).
  apply mode_In in Hm. destruct Hm as [Hm Cm].
  exists m, rest. repeat split; try assumption.
  - intros x Hx. rewrite Cm. now apply max_count_ge.
  - intros x Hx Ex.
    assert (Hxm : In x (mode labels)) by (apply mode_In; split; [assumption | congruence]).
    pose proof (sort_labels_head_least
                  (filter (fun x => count_label labels x =? max_count labels)
                          (unique String.eqb labels))) as L.
    fold (mode labels) in L. rewrite Em in L, Hxm. simpl in L. now apply L.
Qed.

End Lists.

(** ** Distribution Calculator *)

Section Distributions.
Context {num : Type} `{Number num}.

Lemma value_counts_pct_In (labels : list string) (x : string) (v : num) :
  In (x, v) (value_counts_pct labels) <-> In x labels /\ v = percentage labels x.
Proof.
  unfold value_counts_pct, percentage. rewrite in_map_iff. split.
  - intros ([y c] & E & Hy). apply value_counts_In in Hy. destruct Hy as [Hy ->].
    simpl in E. inversion E; subst. now split.
  - intros [Hx ->]. exists (x, count_label labels x). split; [reflexivity|].
    now apply value_counts_In.
Qed.

Lemma value_counts_pct_keys (labels : list string) :
  map fst (value_counts_pct (num:=num) labels) = map fst (value_counts labels).
Proof. unfold value_counts_pct. rewrite map_map. reflexivity. Qed.

End Distributions.

(** C1.  The end-to-end scenario, in binary64 as the program computes it: four
    documents with sentiments POSITIVE, POSITIVE, NEGATIVE, NEUTRAL and
    emotions joy, joy, anger, neutral give the sentiment Distribution
    {POSITIVE: 50.0, NEGATIVE: 25.0, NEUTRAL: 25.0}, the emotion Distribution
    {joy: 50.0, anger: 25.0, neutral: 25.0}, the mood score 61.6 and the
    volatility 75.0. *)
Theorem end_to_end_scenario :
  let sentiment_pct := fst (compute_distributions (num:=float) scenario) in
  let emotion_pct := snd (compute_distributions (num:=float) scenario) in
  Permutation sentiment_pct
    [("POSITIVE", 50%float); ("NEGATIVE", 25%float); ("NEUTRAL", 25%float)]
  /\ Permutation emotion_pct
    [("joy", 50%float); ("anger", 25%float); ("neutral", 25%float)]
  /\ mood_score sentiment_pct emotion_pct = 61.6%float
  /\ volatility_index emotion_pct = 75%float.
Proof.
  cbv zeta. repeat split.
  - vm_compute. reflexivity.
  - vm_compute. reflexivity.
Qed.

(** The same scenario in exact arithmetic. *)
Lemma end_to_end_scenario_exact :
  let sentiment_pct := fst (compute_distributions (num:=Q) scenario) in
  let emotion_pct := snd (compute_distributions (num:=Q) scenario) in
  (get sentiment_pct "POSITIVE" 0 == 50 /\ get sentiment_pct "NEGATIVE" 0 == 25
   /\ get sentiment_pct "NEUTRAL" 0 == 25)%Q
  /\ (get emotion_pct "joy" 0 == 50 /\ get emotion_pct "anger" 0 == 25
      /\ get emotion_pct "neutral" 0 == 25)%Q
  /\ (mood_score sentiment_pct emotion_pct == 61.6)%Q
  /\ (volatility_index emotion_pct == 75)%Q.
Proof. cbv zeta. repeat split. Qed.

(** The arithmetic of the mood score on the scenario, step by step in
    binary64: the penalty [25 / 4 * 0.3] is [1.875] and the unrounded score is
    [61.5625]. *)
Lemma scenario_mood_steps :
  PrimFloat.mul (PrimFloat.div 25 4) (lit_0_3 (num:=float)) = 1.875%float
  /\ PrimFloat.add 50 (PrimFloat.div (PrimFloat.sub (PrimFloat.sub 50 25) 1.875) 2)
     = 61.5625%float
  /\ round1 (num:=float) 61.5625%float = 61.6%float
  /\ lit_0_3 (num:=float) = 0.3%float.
Proof. repeat split. Qed.

(** C3, as stated, fails: the Distribution entries are not rounded.  With
    three documents of three different sentiments the entry of POSITIVE is
    one third of 100 ([33.33333333333333] in binary64, [100/3] exactly), not
    the [33.3] that rounding to one decimal gives. *)
Lemma distribution_not_rounded :
  get (fst (compute_distributions (num:=float) thirds)) "POSITIVE" 0%float
    <> spec_percentage (map sentiment (rows thirds)) "POSITIVE"
  /\ ~ (get (fst (compute_distributions (num:=Q) thirds)) "POSITIVE" 0
        == spec_percentage (map sentiment (rows thirds)) "POSITIVE")%Q.
Proof.
  split.
  - intros E. apply (f_equal Prim2SF) in E. vm_compute in E. discriminate E.
  - intros E. vm_compute in E. discriminate E.
Qed.

(** C3, amended.  For every corpus, each of the two Distributions of
    [compute_distributions] has exactly the distinct observed labels as keys,
    each once, and maps a label to its count divided by the number of
    documents, times 100, without rounding; an empty corpus gives two empty
    Distributions. *)
Theorem compute_distributions_entries (num : Type) (N : Number num) (df : DataFrame) :
  let sentiment_pct := fst (compute_distributions (num:=num) df) in
  let emotion_pct := snd (compute_distributions (num:=num) df) in
  (forall x v, In (x, v) sentiment_pct
               <-> In x (map sentiment (rows df))
                   /\ v = percentage (map sentiment (rows df)) x)
  /\ NoDup (map fst sentiment_pct)
  /\ (forall x v, In (x, v) emotion_pct
                  <-> In x (map emotion (rows df))
                      /\ v = percentage (map emotion (rows df)) x)
  /\ NoDup (map fst emotion_pct)
  /\ (rows df = [] -> compute_distributions (num:=num) df = ([], [])).
Proof.
  cbv zeta. unfold compute_distributions. cbn [fst snd].
  split; [intros x v; apply value_counts_pct_In|].
  split; [rewrite value_counts_pct_keys; apply value_counts_keys_NoDup|].
  split; [intros x v; apply value_counts_pct_In|].
  split; [rewrite value_counts_pct_keys; apply value_counts_keys_NoDup|].
  intros ->. reflexivity.
Qed.

Lemma compute_distributions_entries_witness :
  In ("POSITIVE", percentage (num:=float) (map sentiment (rows scenario)) "POSITIVE")
     (fst (compute_distributions scenario))
  /\ compute_distributions (num:=float) {| has_topic := false; rows := [] |} = ([], []).
Proof.
  pose proof (compute_distributions_entries float Number_float scenario) as T.
  pose proof (compute_distributions_entries float Number_float
                {| has_topic := false; rows := [] |}) as T0.
  cbv zeta in T, T0. split.
  - apply (proj1 T). split; [simpl; now left | reflexivity].
  - apply (proj2 (proj2 (proj2 (proj2 T0)))). reflexivity.
Defined.

(** ** Mood Scorer *)

Section MoodScorer.
Local Open Scope Q_scope.

(** In exact arithmetic, for all sentiment Distributions [s], [s'] and
    every emotion Distribution [e]: when [s'] differs from [s] by a larger
    POSITIVE entry only, its mood score is not smaller; when it differs by a
    larger NEGATIVE entry only, its mood score is not larger; and the mood
    score always lies between 0 and 100. *)
Theorem mood_score_monotone_bounded (s s' e : Series Q) :
  ((forall k, k <> "POSITIVE" -> get s k 0 == get s' k 0) ->
   get s "POSITIVE" 0 <= get s' "POSITIVE" 0 ->
   mood_score s e <= mood_score s' e)
  /\ ((forall k, k <> "NEGATIVE" -> get s k 0 == get s' k 0) ->
      get s "NEGATIVE" 0 <= get s' "NEGATIVE" 0 ->
      mood_score s' e <= mood_score s e)
  /\ 0 <= mood_score s e <= 100.
Proof.
  split; [|split].
  - intros Same Pos. apply mood_score_Q_mono; [assumption|].
    rewrite (Same "NEGATIVE"); [apply Qle_refl | discriminate].
  - intros Same Neg. apply mood_score_Q_mono; [|assumption].
    rewrite (Same "POSITIVE"); [apply Qle_refl | discriminate].
  - apply mood_score_Q_range.
Qed.

Lemma mood_score_monotone_bounded_witness :
  mood_score [("POSITIVE", 40); ("NEGATIVE", 30)] [("anger", 20)]
    <= mood_score [("POSITIVE", 60); ("NEGATIVE", 30)] [("anger", 20)]
  /\ mood_score [("POSITIVE", 40); ("NEGATIVE", 50)] [("anger", 20)]
     <= mood_score [("POSITIVE", 40); ("NEGATIVE", 30)] [("anger", 20)].
Proof.
  split.
  - apply (proj1 (mood_score_monotone_bounded
                    [("POSITIVE", 40); ("NEGATIVE", 30)]
                    [("POSITIVE", 60); ("NEGATIVE", 30)] [("anger", 20)])).
    + intros k Hk. cbn [get].
      destruct (String.eqb_spec "POSITIVE" k) as [E | _]; [congruence | reflexivity].
    + vm_compute. discriminate.
  - apply (proj1 (proj2 (mood_score_monotone_bounded
                    [("POSITIVE", 40); ("NEGATIVE", 30)]
                    [("POSITIVE", 40); ("NEGATIVE", 50)] [("anger", 20)]))).
    + intros k Hk. cbn [get].
      destruct (String.eqb_spec "POSITIVE" k) as [_ | _]; [reflexivity|].
      destruct (String.eqb_spec "NEGATIVE" k) as [E | _]; [congruence | reflexivity].
    + vm_compute. discriminate.
Defined.

(** A neutral input scores exactly 50, in binary64 and exactly. *)
Lemma mood_score_neutral :
  mood_score (num:=float) [("POSITIVE", 0%float); ("NEGATIVE", 0%float)] [] = 50%float
  /\ mood_score (num:=Q) [("POSITIVE", 0); ("NEGATIVE", 0)] [] == 50.
Proof. split; reflexivity. Qed.

End MoodScorer.

(** ** Volatility Scorer *)

Section VolatilityScorer.
Local Open Scope Q_scope.

Lemma fold_max_Q (l : list Q) (v : Q) :
  let M := fold_left (fun acc x => if Qltb acc x then x else acc) l v in
  In M (v :: l) /\ forall x, In x (v :: l) -> x <= M.
Proof.
  cbv zeta. revert v. induction l as [|a t IH]; intros v; cbn [fold_left].
  - split; [now left|]. intros x [<- | []]. apply Qle_refl.
  - destruct (IH (if Qltb v a then a else v)) as [HM Hle]. split.
    + destruct HM as [HM | HM]; [|right; now right].
      rewrite <- HM. destruct (Qltb v a); [right|]; now left.
    + intros x [<- | [<- | Hx]].
      * destruct (Qltb v a) eqn:E.
        -- apply Qltb_lt in E. apply Qle_trans with a; [lra|]. apply Hle. now left.
        -- apply Hle. now left.
      * destruct (Qltb v a) eqn:E.
        -- apply Hle. now left.
        -- apply Qltb_ge in E. apply Qle_trans with v; [lra|]. apply Hle. now left.
      * apply Hle. now right.
Qed.

Lemma fold_min_Q (l : list Q) (v : Q) :
  let m := fold_left (fun acc x => if Qltb x acc then x else acc) l v in
  In m (v :: l) /\ forall x, In x (v :: l) -> m <= x.
Proof.
  cbv zeta. revert v. induction l as [|a t IH]; intros v; cbn [fold_left].
  - split; [now left|]. intros x [<- | []]. apply Qle_refl.
  - destruct (IH (if Qltb a v then a else v)) as [HM Hle]. split.
    + destruct HM as [HM | HM]; [|right; now right].
      rewrite <- HM. destruct (Qltb a v); [right|]; now left.
    + intros x [<- | [<- | Hx]].
      * destruct (Qltb a v) eqn:E.
        -- apply Qltb_lt in E. apply Qle_trans with a; [|lra]. apply Hle. now left.
        -- apply Hle. now left.
      * destruct (Qltb a v) eqn:E.
        -- apply Hle. now left.
        -- apply Qltb_ge in E. apply Qle_trans with v; [|lra]. apply Hle. now left.
      * apply Hle. now right.
Qed.

(** On a non-empty emotion Distribution, in exact arithmetic,
    [volatility_index] is [round(100 * (1 - (max - min) / 100), 1)] with [max]
    the largest and [min] the smallest of its values. *)
Lemma volatility_index_exact_formula (k : string) (v : Q) (t : Series Q) :
  let e := (k, v) :: t in
  let M := series_max v t in
  let m := series_min v t in
  (In M (values e) /\ forall x, In x (values e) -> x <= M)
  /\ (In m (values e) /\ forall x, In x (values e) -> m <= x)
  /\ volatility_index e = round1 (100 * (1 - (M - m) / 100)).
Proof.
  cbv zeta. split; [|split].
  - apply (fold_max_Q (values t) v).
  - apply (fold_min_Q (values t) v).
  - reflexivity.
Qed.

(** C4.  In binary64, on a corpus whose documents all carry the emotion joy
    the emotion Distribution is {joy: 100} and [volatility_index] returns 100,
    the value it gives to an even split {joy: 50, anger: 50}: the largest and
    the smallest value are the same entry, so the concentration is 0.  With
    an entry for an emotion no document carries, {joy: 100, anger: 0}, the
    same corpus scores 0.  A Distribution with a single entry [v] scores
    [round(100 * (1 - (v - v) / 100), 1)] in every arithmetic, and the empty
    Distribution scores 0. *)
Theorem volatility_single_emotion :
  snd (compute_distributions (num:=float) all_joy) = [("joy", 100%float)]
  /\ volatility_index (num:=float) (snd (compute_distributions all_joy)) = 100%float
  /\ volatility_index (num:=float) [("joy", 100%float); ("anger", 0%float)] = 0%float
  /\ volatility_index (num:=float) [("joy", 50%float); ("anger", 50%float)] = 100%float
  /\ volatility_index (num:=Q) [("joy", 100)] == 100
  /\ (forall (num : Type) (N : Number num) (k : string) (v : num),
        volatility_index [(k, v)]
        = round1 (mul (of_int 100) (sub (of_int 1) (div (sub v v) (of_int 100)))))
  /\ (forall (num : Type) (N : Number num), volatility_index (num:=num) [] = of_int 0).
Proof.
  repeat split; vm_compute; reflexivity.
Qed.

End VolatilityScorer.

(** ** Topics: selections, the correlator and the narrative detector *)

Section Topics.
Local Open Scope nat_scope.

Lemma select_topic_length (df : DataFrame) (t : Z) :
  List.length (select_topic df t) = documents_with_topic df t.
Proof.
  unfold select_topic, documents_with_topic.
  induction (rows df) as [|d l IH]; simpl; [reflexivity|].
  destruct (Z.eq_dec (topic d) t) as [E | E].
  - apply Z.eqb_eq in E. rewrite E. simpl. now rewrite IH.
  - apply Z.eqb_neq in E. now rewrite E.
Qed.

Lemma select_topic_In (df : DataFrame) (t : Z) (d : Doc) :
  In d (select_topic df t) <-> In d (rows df) /\ topic d = t.
Proof.
  unfold select_topic. rewrite filter_In, Z.eqb_eq. reflexivity.
Qed.

Lemma count_sentiment_pos_neg (docs : list Doc) :
  count_sentiment docs "POSITIVE" + count_sentiment docs "NEGATIVE" <= List.length docs.
Proof.
  unfold count_sentiment. induction docs as [|d l IH]; simpl; [lia|].
  destruct (String.eqb_spec (sentiment d) "POSITIVE") as [E | _].
  - rewrite E. simpl. lia.
  - destruct (String.eqb (sentiment d) "NEGATIVE"); simpl; lia.
Qed.

Context {num : Type} `{Number num}.

(** What one turn of the loop of [detect_narratives] appends. *)
Lemma narrative_of_inv (df : DataFrame) (named : bool) (row : TopicRow)
  (s : TopicSummary num) :
  In s (narrative_of df named row) ->
  let docs := select_topic df (Topic row) in
  let total := Z.of_nat (List.length docs) in
  Topic row <> (-1)%Z
  /\ docs <> []
  /\ topic_id s = Topic row
  /\ document_count s = List.length docs
  /\ dominant_emotion s = hd "neutral" (mode (map emotion docs))
  /\ positive_pct s
     = round1 (mul (div (of_int (Z.of_nat (count_sentiment docs "POSITIVE"))) (of_int total))
                   (of_int 100))
  /\ negative_pct s
     = round1 (mul (div (of_int (Z.of_nat (count_sentiment docs "NEGATIVE"))) (of_int total))
                   (of_int 100)).
Proof.
  unfold narrative_of. cbv zeta.
  destruct (Z.eqb_spec (Topic row) (-1)) as [|Hne]; [intros []|].
  destruct (select_topic df (Topic row)) as [|d l] eqn:Edocs; [intros []|].
  cbn [List.length Nat.eqb Nat.ltb Nat.leb].
  assert (Hpos : (0 <? Z.of_nat (S (List.length l)))%Z = true) by (apply Z.ltb_lt; lia).
  rewrite Hpos. intros [<- | []]. cbn -[count_sentiment mode round1 Z.of_nat].
  repeat split; try reflexivity; try assumption. discriminate.
Qed.

Lemma detect_narratives_records (df : DataFrame) (topic_info : option TopicInfo)
  (fr : Frame (TopicSummary num)) (s : TopicSummary num) :
  detect_narratives df topic_info = Returns (Some fr) ->
  In s (records fr) ->
  exists info row,
    topic_info = Some info /\ In row (topic_rows info)
    /\ In s (narrative_of df (has_name info) row).
Proof.
  unfold detect_narratives.
  destruct (has_topic df); [|discriminate].
  destruct topic_info as [info|]; [|discriminate].
  unfold sort_values_desc.
  destruct (existsb _ _); [|discriminate].
  intros E Hs. inversion E; subst; clear E. cbn [records] in Hs.
  apply sort_desc_In in Hs. cbn [records pd_DataFrame] in Hs.
  apply in_flat_map in Hs. destruct Hs as (row & Hrow & Hs).
  exists info, row. now repeat split.
Qed.

(** [detect_narratives] with a topic column and a topic table raises exactly
    when the loop appends no summary. *)
Lemma detect_narratives_raises_iff (df : DataFrame) (info : TopicInfo) :
  has_topic df = true ->
  (detect_narratives (num:=num) df (Some info) = Raises (KeyError "document_count")
   <-> flat_map (narrative_of (num:=num) df (has_name info)) (topic_rows info) = []).
Proof.
  intros Ht. unfold detect_narratives, sort_values_desc. rewrite Ht.
  destruct (flat_map (narrative_of df (has_name info)) (topic_rows info)) as [|s l]; cbn.
  - split; reflexivity.
  - split; discriminate.
Qed.

End Topics.

(** C5: the code raises where the claim promises an empty result.  On a
    corpus whose documents are all outliers (topic -1), with the topic table
    of such a run, the loop of [detect_narratives] appends nothing, the frame
    built from the empty list has no column, and sorting it by
    ["document_count"] raises [KeyError]; this holds in any arithmetic. *)
Theorem detect_narratives_unclustered_raises (num : Type) (N : Number num) :
  detect_narratives (num:=num) unclustered (Some outlier_info)
  = Raises (KeyError "document_count")
  /\ detect_narratives (num:=num) {| has_topic := true; rows := [] |} (Some two_topics_info)
     = Raises (KeyError "document_count").
Proof. split; reflexivity. Qed.

(** Whenever every row of the topic table is the outlier row or matches no
    document, [detect_narratives] raises. *)
Lemma detect_narratives_no_summary_raises (num : Type) (N : Number num)
  (df : DataFrame) (info : TopicInfo) :
  has_topic df = true ->
  (forall row, In row (topic_rows info) -> Topic row = -1 \/ select_topic df (Topic row) = []) ->
  detect_narratives (num:=num) df (Some info) = Raises (KeyError "document_count").
Proof.
  intros Ht Hrows. apply detect_narratives_raises_iff; [assumption|].
  induction (topic_rows info) as [|row l IH]; [reflexivity|].
  cbn [flat_map]. rewrite IH by (intros r Hr; apply Hrows; now right).
  rewrite app_nil_r. unfold narrative_of. cbv zeta.
  destruct (Hrows row (or_introl eq_refl)) as [E | E]; rewrite E; [reflexivity|].
  now destruct (Topic row =? -1).
Qed.

(** ** Topic-Emotion Correlator *)

(** C7.  For every corpus with a topic column, no Correlation Entry of
    [topic_emotion_correlation] has topic -1. *)
Theorem correlation_never_outlier (num : Type) (N : Number num) (df : DataFrame)
  (table : list (CorrelationEntry num)) (entry : CorrelationEntry num) :
  topic_emotion_correlation df = Some table ->
  In entry table ->
  ce_topic entry <> -1.
Proof.
  unfold topic_emotion_correlation.
  destruct (has_topic df); cbn [negb]; [|discriminate].
  intros E Hin. inversion E; subst; clear E.
  apply in_flat_map in Hin. destruct Hin as (t & _ & Hin).
  destruct (Z.eqb_spec t (-1)) as [|Hne]; [destruct Hin|].
  apply in_map_iff in Hin. destruct Hin as (ep & <- & _). exact Hne.
Qed.

Lemma correlation_never_outlier_witness :
  exists table entry,
    topic_emotion_correlation (num:=float) two_topics = Some table
    /\ In entry table
    /\ ce_topic entry <> -1.
Proof.
  eexists. eexists. split; [reflexivity|]. split; [left; reflexivity|].
  eapply (correlation_never_outlier float Number_float two_topics);
    [reflexivity | left; reflexivity].
Defined.

(** C10.  [topic_emotion_correlation] returns [None] exactly when the corpus
    has no topic column; with the column, a corpus whose documents all have
    topic -1, and in particular an empty corpus, gives an empty table. *)
Theorem correlation_absent_iff_no_topic_column (num : Type) (N : Number num)
  (df : DataFrame) :
  (topic_emotion_correlation (num:=num) df = None <-> has_topic df = false)
  /\ (has_topic df = true ->
      (forall d, In d (rows df) -> topic d = -1) ->
      topic_emotion_correlation (num:=num) df = Some [])
  /\ (has_topic df = true -> rows df = [] ->
      topic_emotion_correlation (num:=num) df = Some []).
Proof.
  unfold topic_emotion_correlation. split; [|split].
  - destruct (has_topic df); cbn [negb]; split; congruence.
  - intros -> Hall. cbn [negb]. f_equal.
    assert (Hu : forall t, In t (unique Z.eqb (map topic (rows df))) -> t = -1).
    { intros t Ht. apply (proj1 (unique_In Z.eqb Z.eqb_eq _ _)) in Ht.
      apply in_map_iff in Ht. destruct Ht as (d & <- & Hd). now apply Hall. }
    induction (unique Z.eqb (map topic (rows df))) as [|t l IH]; [reflexivity|].
    cbn [flat_map]. rewrite (Hu t (or_introl eq_refl)). cbn [Z.eqb app].
    apply IH. intros t' Ht'. apply Hu. now right.
  - intros -> ->. reflexivity.
Qed.

Lemma correlation_absent_iff_no_topic_column_witness :
  topic_emotion_correlation (num:=float) scenario = None
  /\ topic_emotion_correlation (num:=float) unclustered = Some []
  /\ topic_emotion_correlation (num:=float) {| has_topic := true; rows := [] |} = Some [].
Proof.
  split; [|split].
  - apply (proj1 (correlation_absent_iff_no_topic_column float Number_float scenario)).
    reflexivity.
  - apply (proj1 (proj2 (correlation_absent_iff_no_topic_column float Number_float unclustered)));
      [reflexivity|].
    intros d [<- | [<- | []]]; reflexivity.
  - apply (proj2 (proj2 (correlation_absent_iff_no_topic_column float Number_float
                           {| has_topic := true; rows := [] |}))); reflexivity.
Defined.

(** ** Narrative Detector *)

(** C6, as stated, fails on the tie-break.  In a topic whose two documents
    have emotions joy and anger, in this order, both labels have the highest
    count 1; the first label to reach it is joy, and the dominant emotion of
    the Topic Summary is anger: [mode()] returns the tied labels sorted. *)
Lemma dominant_emotion_not_first_to_reach :
  exists fr s,
    detect_narratives (num:=float) tied_emotions (Some topic0_info) = Returns (Some fr)
    /\ In s (records fr)
    /\ dominant_emotion s = "anger"
    /\ spec_dominant_emotion (map emotion (select_topic tied_emotions (topic_id s)))
       = Some "joy".
Proof.
  eexists. eexists. split; [reflexivity|]. split; [left; reflexivity|].
  split; reflexivity.
Qed.

(** C6, amended.  For every Topic Summary of [detect_narratives], the dominant
    emotion is a label of the topic's selection of highest count, and among
    the labels of that count it is the least in string order. *)
Theorem dominant_emotion_most_frequent (num : Type) (N : Number num) (df : DataFrame)
  (topic_info : option TopicInfo) (fr : Frame (TopicSummary num))
  (s : TopicSummary num) :
  detect_narratives df topic_info = Returns (Some fr) ->
  In s (records fr) ->
  let labels := map emotion (select_topic df (topic_id s)) in
  In (dominant_emotion s) labels
  /\ (forall x, In x labels ->
        (count_label labels x <= count_label labels (dominant_emotion s))%nat)
  /\ (forall x, In x labels ->
        count_label labels x = count_label labels (dominant_emotion s) ->
        String.leb (dominant_emotion s) x = true).
Proof.
  intros Hret Hs.
  destruct (detect_narratives_records df topic_info fr s Hret Hs) as (info & row & _ & _ & Hrow).
  apply narrative_of_inv in Hrow. cbv zeta in Hrow.
  destruct Hrow as (_ & Hne & Eid & _ & Edom & _).
  cbv zeta. rewrite Eid, Edom.
  assert (Hlab : map emotion (select_topic df (Topic row)) <> []).
  { destruct (select_topic df (Topic row)); [congruence | discriminate]. }
  destruct (mode_head _ Hlab) as (m & rest & Em & Hm & Hmax & Hleast).
  rewrite Em. cbn [hd]. repeat split; assumption.
Qed.

Lemma dominant_emotion_most_frequent_witness :
  exists fr s,
    detect_narratives (num:=float) tied_emotions (Some topic0_info) = Returns (Some fr)
    /\ In s (records fr)
    /\ In (dominant_emotion s) (map emotion (select_topic tied_emotions (topic_id s)))
    /\ String.leb (dominant_emotion s) "joy" = true.
Proof.
  eexists. eexists. split; [reflexivity|]. split; [left; reflexivity|].
  pose proof (dominant_emotion_most_frequent float Number_float tied_emotions
                (Some topic0_info) _ _ eq_refl (or_introl eq_refl)) as T.
  cbv zeta in T. split.
  - exact (proj1 T).
  - apply (proj2 (proj2 T)); [left; reflexivity | reflexivity].
Defined.

(** C8, as stated, fails in the arithmetic of the program.  For a topic of 80
    documents, 31 positive and 49 negative, [(49 / 80) * 100] is
    [61.25000000000001] in binary64 and rounds to [61.3], while
    [(31 / 80) * 100] rounds to [38.8]: the two percentages sum to more than
    100. *)
Lemma percentages_exceed_100 :
  exists fr s,
    detect_narratives (num:=float) eighty (Some topic0_info) = Returns (Some fr)
    /\ In s (records fr)
    /\ positive_pct s = 38.8%float
    /\ negative_pct s = 61.3%float
    /\ PrimFloat.ltb 100 (PrimFloat.add (positive_pct s) (negative_pct s)) = true
    /\ PrimFloat.mul (PrimFloat.div 31 80) 100 = 38.75%float
    /\ PrimFloat.ltb 61.25 (PrimFloat.mul (PrimFloat.div 49 80) 100) = true.
Proof.
  eexists. eexists. split; [vm_compute; reflexivity|]. split; [left; reflexivity|].
  repeat split.
Qed.

Section ExactShares.
Local Open Scope Q_scope.

(** Two shares of a total, in tenths of a percent, sum to at most 1000. *)
Lemma shares_sum (p n t : Z) :
  (0 < t)%Z -> (p + n <= t)%Z ->
  inject_Z p / inject_Z t * inject_Z 100 * 10 + inject_Z n / inject_Z t * inject_Z 100 * 10
  <= inject_Z 1000.
Proof.
  intros Ht Hpn.
  assert (Hq : inject_Z p + inject_Z n <= inject_Z t).
  { rewrite <- inject_Z_plus. now rewrite <- Zle_Qle. }
  assert (Ht' : 0 < inject_Z t) by (change 0 with (inject_Z 0); now rewrite <- Zlt_Qlt).
  assert (Hi : 0 < / inject_Z t) by now apply Qinv_lt_0_compat.
  assert (E : inject_Z t * / inject_Z t == 1) by (apply Qmult_inv_r; lra).
  unfold Qdiv. change (inject_Z 100) with 100. change (inject_Z 1000) with 1000.
  set (i := / inject_Z t) in *.
  assert (M : (inject_Z p + inject_Z n) * i <= inject_Z t * i).
  { apply Qmult_le_compat_r; lra. }
  nra.
Qed.

Lemma exact_percentages_sum (p n t : Z) :
  (0 < t)%Z -> (p + n <= t)%Z ->
  round1 (mul (div (of_int p) (of_int t)) (of_int 100))
  + round1 (mul (div (of_int n) (of_int t)) (of_int 100)) <= 100.
Proof.
  intros Ht Hpn. rewrite !round1_Q_eq. cbn [mul div of_int Number_Q].
  pose proof (Qrint_pair_sum _ _ 1000 (shares_sum p n t Ht Hpn) eq_refl) as S.
  rewrite Zle_Qle, inject_Z_plus in S. change (inject_Z 1000) with 1000 in S.
  lra.
Qed.

End ExactShares.

(** C8, amended.  For every Topic Summary of [detect_narratives], in any
    arithmetic, [document_count] is the number of documents of the corpus
    bearing the topic id, and [positive_pct] and [negative_pct] are the shares
    of two counts whose sum is at most [document_count], each rounded to one
    decimal on its own; in exact arithmetic the two percentages sum to at
    most 100. *)
Theorem narratives_invariant :
  (forall (num : Type) (N : Number num) (df : DataFrame)
          (topic_info : option TopicInfo) (fr : Frame (TopicSummary num))
          (s : TopicSummary num),
      detect_narratives df topic_info = Returns (Some fr) ->
      In s (records fr) ->
      document_count s = documents_with_topic df (topic_id s)
      /\ exists pos_count neg_count : nat,
           (pos_count + neg_count <= document_count s)%nat
           /\ positive_pct s = rounded_share pos_count (document_count s)
           /\ negative_pct s = rounded_share neg_count (document_count s))
  /\ (forall (df : DataFrame) (topic_info : option TopicInfo)
             (fr : Frame (TopicSummary Q)) (s : TopicSummary Q),
         detect_narratives df topic_info = Returns (Some fr) ->
         In s (records fr) ->
         (positive_pct s + negative_pct s <= 100)%Q).
Proof.
  split.
  - intros num N df topic_info fr s Hret Hs.
    destruct (detect_narratives_records df topic_info fr s Hret Hs)
      as (info & row & _ & _ & Hrow).
    apply narrative_of_inv in Hrow. cbv zeta in Hrow.
    destruct Hrow as (_ & _ & Eid & Ecount & _ & Epos & Eneg).
    split; [rewrite Ecount, Eid; apply select_topic_length|].
    exists (count_sentiment (select_topic df (Topic row)) "POSITIVE"),
           (count_sentiment (select_topic df (Topic row)) "NEGATIVE").
    rewrite Ecount. split; [apply count_sentiment_pos_neg|].
    split; assumption.
  - intros df topic_info fr s Hret Hs.
    destruct (detect_narratives_records df topic_info fr s Hret Hs)
      as (info & row & _ & _ & Hrow).
    apply narrative_of_inv in Hrow. cbv zeta in Hrow.
    destruct Hrow as (_ & Hne & _ & _ & _ & Epos & Eneg).
    rewrite Epos, Eneg. apply exact_percentages_sum.
    + destruct (select_topic df (Topic row)); [congruence | cbn [List.length]; lia].
    + pose proof (count_sentiment_pos_neg (select_topic df (Topic row))). lia.
Qed.

Lemma narratives_invariant_witness :
  exists fr s,
    detect_narratives (num:=Q) two_topics (Some two_topics_info) = Returns (Some fr)
    /\ In s (records fr)
    /\ document_count s = documents_with_topic two_topics (topic_id s)
    /\ (positive_pct s + negative_pct s <= 100)%Q.
Proof.
  eexists. eexists.
  assert (E : detect_narratives (num:=Q) two_topics (Some two_topics_info)
              = Returns (Some ?[fr])) by (vm_compute; reflexivity).
  split; [exact E|]. split; [left; reflexivity|].
  split.
  - apply (proj1 narratives_invariant Q Number_Q two_topics (Some two_topics_info) _ _ E
             (or_introl eq_refl)).
  - apply (proj2 narratives_invariant two_topics (Some two_topics_info) _ _ E).
    left; reflexivity.
Defined.

(** The summary of the 80-document topic in exact arithmetic: 38.8 and 61.2. *)
Lemma eighty_exact :
  exists fr s,
    detect_narratives (num:=Q) eighty (Some topic0_info) = Returns (Some fr)
    /\ In s (records fr)
    /\ (positive_pct s == 38.8)%Q /\ (negative_pct s == 61.2)%Q.
Proof.
  eexists. eexists. split; [vm_compute; reflexivity|]. split; [left; reflexivity|].
  split; vm_compute; reflexivity.
Qed.

(** ** Insight Generator *)

(** C9.  [get_insights] returns the mood-tier statement, the
    emotion-dominance statement and the sample-size statement, in this order,
    followed by nothing when the Topic Summaries are absent or empty and by
    exactly one top-narrative statement when they are present and non-empty:
    at least 3 insights always, exactly 4 in the latter case. *)
Theorem get_insights_shape (num : Type) (N : Number num) (df : DataFrame)
  (sentiment_pct emotion_pct : Series num) (mood : num) :
  (forall narratives,
     (3 <= List.length (get_insights df sentiment_pct emotion_pct mood narratives))%nat
     /\ map kind_of (firstn 3 (get_insights df sentiment_pct emotion_pct mood narratives))
        = [MoodTier; EmotionDominance; Volume])
  /\ (forall columns top rest,
        map kind_of (get_insights df sentiment_pct emotion_pct mood
                       (Some {| columns := columns; records := top :: rest |}))
        = [MoodTier; EmotionDominance; Volume; TopicInsight])
  /\ List.length (get_insights df sentiment_pct emotion_pct mood None) = 3%nat
  /\ (forall columns,
        List.length (get_insights df sentiment_pct emotion_pct mood
                       (Some {| columns := columns; records := [] |})) = 3%nat).
Proof.
  assert (K : forall narratives,
             exists i1 i2 tl,
               get_insights df sentiment_pct emotion_pct mood narratives
               = i1 :: i2 :: SampleSize (List.length (rows df)) :: tl
               /\ kind_of i1 = MoodTier /\ kind_of i2 = EmotionDominance).
  { intros narratives. unfold get_insights. cbv zeta. cbn [app].
    eexists. eexists. eexists. split; [reflexivity|]. split.
    - destruct (leb (of_int 70) mood); [reflexivity|].
      destruct (leb (of_int 50) mood); [reflexivity|].
      destruct (leb (of_int 30) mood); reflexivity.
    - destruct (ltb (of_int 40) _); reflexivity. }
  split; [|split; [|split]].
  - intros narratives. destruct (K narratives) as (i1 & i2 & tl & -> & K1 & K2).
    cbn [List.length firstn map kind_of]. rewrite K1, K2. split; [lia | reflexivity].
  - intros columns top rest.
    destruct (K (Some {| columns := columns; records := top :: rest |}))
      as (i1 & i2 & tl & E & K1 & K2).
    unfold get_insights in *. cbv zeta in *. cbn [app records] in *.
    inversion E; subst. cbn [map kind_of]. rewrite K1, K2. reflexivity.
  - reflexivity.
  - intros columns. reflexivity.
Qed.

(** The insights of the end-to-end scenario, which has no Topic Summaries. *)
Lemma scenario_insights :
  get_insights (num:=float) scenario
    (fst (compute_distributions scenario)) (snd (compute_distributions scenario))
    61.6%float None
  = [ModeratelyPositive 61.6%float; StrongEmotionalSignal "joy" 50%float; SampleSize 4].
Proof. vm_compute. reflexivity. Qed.

(** ** Empty inputs *)

(** On an empty corpus and on empty Distributions the operations other than
    [detect_narratives] return: two empty Distributions, the mood 50, the
    volatility 0, an empty correlation table and three insights; and
    [detect_narratives] returns the absent result when the topic column or the
    topic table is missing. *)
Lemma empty_inputs_defined :
  let empty := {| has_topic := true; rows := [] |} in
  compute_distributions (num:=float) empty = ([], [])
  /\ mood_score (num:=float) [] [] = 50%float
  /\ volatility_index (num:=float) [] = 0%float
  /\ topic_emotion_correlation (num:=float) empty = Some []
  /\ get_insights (num:=float) empty [] [] 50%float None
     = [ModeratelyPositive 50%float; DiverseEmotions; SampleSize 0]
  /\ detect_narratives (num:=float) empty None = Returns None
  /\ detect_narratives (num:=float) scenario (Some outlier_info) = Returns None.
Proof. cbv zeta. repeat split. Qed.

(** ** Further properties of the Distribution Calculator *)

Section DistributionLaws.
Local Open Scope nat_scope.

Lemma sum_nat_perm (l l' : list nat) :
  Permutation l l' -> fold_right Nat.add 0 l = fold_right Nat.add 0 l'.
Proof. induction 1; simpl; lia. Qed.

Lemma count_occ_sum_indicator (u : list string) (a : string) :
  fold_right Nat.add 0 (map (fun x => if string_dec a x then 1 else 0) u)
  = count_occ string_dec u a.
Proof.
  induction u as [|b u IH]; simpl; [reflexivity|].
  destruct (string_dec a b) as [-> | Hne].
  - destruct (string_dec b b); [|congruence]. now rewrite IH.
  - destruct (string_dec b a); [congruence|]. exact IH.
Qed.

Lemma counts_sum_cons (u l : list string) (a : string) :
  fold_right Nat.add 0 (map (count_label (a :: l)) u)
  = count_occ string_dec u a + fold_right Nat.add 0 (map (count_label l) u).
Proof.
  rewrite <- count_occ_sum_indicator. unfold count_label.
  induction u as [|b u IHu]; cbn [map fold_right]; [reflexivity|].
  rewrite IHu. destruct (string_dec a b) as [E | E].
  - rewrite (count_occ_cons_eq string_dec l E). lia.
  - rewrite (count_occ_cons_neq string_dec l E). lia.
Qed.

(** The counts of the distinct labels add up to the number of rows. *)
Lemma counts_sum_over (u l : list string) :
  NoDup u -> (forall x, In x l -> In x u) ->
  fold_right Nat.add 0 (map (count_label l) u) = List.length l.
Proof.
  intros Hu. induction l as [|a l IH]; intros Hall.
  - clear. induction u as [|b u IHu]; simpl; [reflexivity | exact IHu].
  - rewrite counts_sum_cons, IH by (intros x Hx; apply Hall; now right).
    assert (C : count_occ string_dec u a = 1).
    { apply NoDup_count_occ'; [assumption|]. apply Hall. now left. }
    rewrite C. reflexivity.
Qed.

Lemma value_counts_total (labels : list string) :
  fold_right Nat.add 0 (map snd (value_counts labels)) = List.length labels.
Proof.
  unfold value_counts.
  rewrite (sum_nat_perm _ _ (Permutation_map snd (sort_desc_perm snd _))).
  rewrite map_map. cbn [snd].
  apply counts_sum_over.
  - apply (unique_NoDup String.eqb String.eqb_eq).
  - intros x Hx. now apply (unique_In String.eqb String.eqb_eq).
Qed.

End DistributionLaws.

Section ExactDistributions.
Local Open Scope Q_scope.

(** A share [c / t * 100] of a positive total, on rationals. *)
Lemma share_bounds (c t : Z) :
  (0 <= c <= t)%Z -> (0 < t)%Z ->
  0 <= inject_Z c / inject_Z t * inject_Z 100 <= 100.
Proof.
  intros [Hc Hct] Ht.
  assert (Hc' : 0 <= inject_Z c) by (change 0 with (inject_Z 0); now rewrite <- Zle_Qle).
  assert (Hct' : inject_Z c <= inject_Z t) by now rewrite <- Zle_Qle.
  assert (Ht' : 0 < inject_Z t) by (change 0 with (inject_Z 0); now rewrite <- Zlt_Qlt).
  assert (Hi : 0 < / inject_Z t) by now apply Qinv_lt_0_compat.
  assert (E : inject_Z t * / inject_Z t == 1) by (apply Qmult_inv_r; lra).
  unfold Qdiv. change (inject_Z 100) with 100. set (i := / inject_Z t) in *.
  assert (M : inject_Z c * i <= inject_Z t * i) by (apply Qmult_le_compat_r; lra).
  assert (P : 0 <= inject_Z c * i) by (apply Qmult_le_0_compat; lra).
  split; lra.
Qed.

Lemma share_positive (c t : Z) :
  (0 < c)%Z -> (0 < t)%Z -> 0 < inject_Z c / inject_Z t * inject_Z 100.
Proof.
  intros Hc Ht.
  assert (Hc' : 0 < inject_Z c) by (change 0 with (inject_Z 0); now rewrite <- Zlt_Qlt).
  assert (Ht' : 0 < inject_Z t) by (change 0 with (inject_Z 0); now rewrite <- Zlt_Qlt).
  assert (Hi : 0 < / inject_Z t) by now apply Qinv_lt_0_compat.
  unfold Qdiv. change (inject_Z 100) with 100.
  assert (P : 0 < inject_Z c * / inject_Z t) by (apply Qmult_lt_0_compat; assumption).
  lra.
Qed.

Lemma share_full (t : Z) : (0 < t)%Z -> inject_Z t / inject_Z t * inject_Z 100 == 100.
Proof.
  intros Ht.
  assert (Ht' : 0 < inject_Z t) by (change 0 with (inject_Z 0); now rewrite <- Zlt_Qlt).
  assert (E : inject_Z t * / inject_Z t == 1) by (apply Qmult_inv_r; lra).
  unfold Qdiv. change (inject_Z 100) with 100. rewrite E. lra.
Qed.

Lemma share_none (t : Z) : inject_Z 0 / inject_Z t * inject_Z 100 == 0.
Proof. unfold Qdiv. change (inject_Z 0) with 0. lra. Qed.

Lemma Qsum_shares (l : list (string * nat)) (t : Z) :
  Qsum (map (fun lc => inject_Z (Z.of_nat (snd lc)) / inject_Z t * inject_Z 100) l)
  == inject_Z (Z.of_nat (fold_right Nat.add 0%nat (map snd l))) / inject_Z t * inject_Z 100.
Proof.
  induction l as [|[x c] l IH]; cbn [map fold_right Qsum snd].
  - unfold Qdiv. change (inject_Z (Z.of_nat 0)) with 0. lra.
  - fold (Qsum (map (fun lc => inject_Z (Z.of_nat (snd lc)) / inject_Z t * inject_Z 100) l)).
    rewrite IH, Nat2Z.inj_add, inject_Z_plus. unfold Qdiv. lra.
Qed.

Lemma value_counts_pct_sum (labels : list string) :
  labels <> [] -> Qsum (values (value_counts_pct (num:=Q) labels)) == 100.
Proof.
  intros Hne. unfold values, value_counts_pct. rewrite map_map. cbn [snd].
  cbn [mul div of_int Number_Q].
  rewrite Qsum_shares, value_counts_total. apply share_full.
  destruct labels; [congruence | cbn [List.length]; lia].
Qed.

Lemma value_counts_pct_range (labels : list string) (v : Q) :
  In v (values (value_counts_pct (num:=Q) labels)) -> 0 < v <= 100.
Proof.
  unfold values. intros Hv. apply in_map_iff in Hv. destruct Hv as ([x w] & <- & Hin).
  apply value_counts_pct_In in Hin. destruct Hin as [Hx ->]. cbn [snd].
  unfold percentage, count_label. cbn [mul div of_int Number_Q].
  pose proof (count_occ_bound string_dec x labels) as B.
  pose proof (proj1 (count_occ_In string_dec labels x) Hx) as P.
  split.
  - apply share_positive; lia.
  - apply share_bounds; lia.
Qed.

End ExactDistributions.

(** X1.  In exact arithmetic, for every non-empty corpus, the values of the
    sentiment Distribution sum to 100, the values of the emotion Distribution
    sum to 100, and every value is above 0 and at most 100. *)
Theorem distributions_sum_to_100 (df : DataFrame) :
  rows df <> [] ->
  let sentiment_pct := fst (compute_distributions (num:=Q) df) in
  let emotion_pct := snd (compute_distributions (num:=Q) df) in
  (Qsum (values sentiment_pct) == 100)%Q
  /\ (Qsum (values emotion_pct) == 100)%Q
  /\ (forall v, In v (values sentiment_pct) -> (0 < v <= 100)%Q)
  /\ (forall v, In v (values emotion_pct) -> (0 < v <= 100)%Q).
Proof.
  intros Hne. cbv zeta. unfold compute_distributions. cbn [fst snd].
  split; [|split; [|split]].
  - apply value_counts_pct_sum. destruct (rows df); [congruence | discriminate].
  - apply value_counts_pct_sum. destruct (rows df); [congruence | discriminate].
  - apply value_counts_pct_range.
  - apply value_counts_pct_range.
Qed.

Lemma distributions_sum_to_100_witness :
  (Qsum (values (fst (compute_distributions (num:=Q) thirds))) == 100)%Q
  /\ (Qsum (values (snd (compute_distributions (num:=Q) thirds))) == 100)%Q.
Proof.
  pose proof (distributions_sum_to_100 thirds ltac:(discriminate)) as T.
  cbv zeta in T. split; [exact (proj1 T) | exact (proj1 (proj2 T))].
Defined.

Section Lookup.
Context {num : Type} `{Number num}.

Lemma get_In (s : Series num) (x : string) (v d : num) :
  NoDup (map fst s) -> In (x, v) s -> get s x d = v.
Proof.
  induction s as [|[k w] s IH]; cbn [get map fst]; [intros _ []|].
  intros Hnd [E | Hin].
  - inversion E; subst. now rewrite String.eqb_refl.
  - inversion Hnd as [|? ? Hk Hnd']; subst.
    destruct (String.eqb_spec k x) as [-> | _].
    + exfalso. apply Hk. apply in_map_iff. now exists (x, v).
    + now apply IH.
Qed.

Lemma get_absent (s : Series num) (x : string) (d : num) :
  ~ In x (map fst s) -> get s x d = d.
Proof.
  induction s as [|[k w] s IH]; cbn [get map fst]; [reflexivity|].
  intros Hn. destruct (String.eqb_spec k x) as [-> | _].
  - exfalso. apply Hn. now left.
  - apply IH. intros Hin. apply Hn. now right.
Qed.

Lemma value_counts_pct_keys_In (labels : list string) (x : string) :
  In x (map fst (value_counts_pct (num:=num) labels)) <-> In x labels.
Proof.
  rewrite in_map_iff. split.
  - intros ([k v] & <- & Hin). apply value_counts_pct_In in Hin. tauto.
  - intros Hx. exists (x, percentage labels x). split; [reflexivity|].
    now apply value_counts_pct_In.
Qed.

Lemma get_value_counts_pct (labels : list string) (x : string) (d : num) :
  (In x labels -> get (value_counts_pct labels) x d = percentage labels x)
  /\ (~ In x labels -> get (value_counts_pct labels) x d = d).
Proof.
  split.
  - intros Hx. apply get_In.
    + rewrite value_counts_pct_keys. apply value_counts_keys_NoDup.
    + now apply value_counts_pct_In.
  - intros Hx. apply get_absent. now rewrite value_counts_pct_keys_In.
Qed.

End Lookup.

(** X2.  Looking a label up in a Distribution of [compute_distributions], as
    [mood_score] does with [.get(label, 0)]: an observed label gives its
    count divided by the number of documents, times 100; a label that no
    document carries gives the default.  This holds in any arithmetic. *)
Theorem distribution_lookup (num : Type) (N : Number num) (df : DataFrame)
  (x : string) (default : num) :
  let sentiment_pct := fst (compute_distributions (num:=num) df) in
  let emotion_pct := snd (compute_distributions (num:=num) df) in
  (In x (map sentiment (rows df)) ->
   get sentiment_pct x default = percentage (map sentiment (rows df)) x)
  /\ (~ In x (map sentiment (rows df)) -> get sentiment_pct x default = default)
  /\ (In x (map emotion (rows df)) ->
      get emotion_pct x default = percentage (map emotion (rows df)) x)
  /\ (~ In x (map emotion (rows df)) -> get emotion_pct x default = default).
Proof.
  cbv zeta. unfold compute_distributions. cbn [fst snd].
  pose proof (get_value_counts_pct (num:=num) (map sentiment (rows df)) x default) as [S1 S2].
  pose proof (get_value_counts_pct (num:=num) (map emotion (rows df)) x default) as [E1 E2].
  repeat split; assumption.
Qed.

Lemma distribution_lookup_witness :
  get (fst (compute_distributions (num:=float) scenario)) "NEGATIVE" 0%float
  = percentage (map sentiment (rows scenario)) "NEGATIVE"
  /\ get (snd (compute_distributions (num:=float) scenario)) "fear" 0%float = 0%float.
Proof.
  pose proof (distribution_lookup float Number_float scenario "NEGATIVE" 0%float) as T.
  pose proof (distribution_lookup float Number_float scenario "fear" 0%float) as T'.
  cbv zeta in T, T'. split.
  - apply (proj1 T). cbn. tauto.
  - apply (proj2 (proj2 (proj2 T'))). cbn. intros [E | [E | [E | [E | []]]]]; discriminate E.
Defined.

(** ** Further properties of the Mood Scorer *)

Section MoodLaws.
Local Open Scope Q_scope.

Lemma round1_Q_proper (x y : Q) : x == y -> round1 x == round1 y.
Proof.
  intros E. apply Qle_antisym; apply round1_Q_mono; rewrite E; apply Qle_refl.
Qed.

Lemma clamp_Q_proper (x y : Q) :
  x == y -> py_max 0 (py_min 100 x) == py_max 0 (py_min 100 y).
Proof.
  intros E. apply Qle_antisym; apply clamp_Q_mono; rewrite E; apply Qle_refl.
Qed.

(** The clamp moves two scores no further apart than they were. *)
Lemma clamp_Q_lipschitz (x y : Q) :
  x <= y -> py_max 0 (py_min 100 y) - py_max 0 (py_min 100 x) <= y - x.
Proof.
  intros L.
  destruct (py_max_Q 0 (py_min 100 x)) as (A & B & [E | E]);
  destruct (py_max_Q 0 (py_min 100 y)) as (A' & B' & [E' | E']);
  destruct (py_min_Q 100 x) as (C & D & [F | F]);
  destruct (py_min_Q 100 y) as (C' & D' & [F' | F']);
  rewrite ?E, ?E', ?F, ?F' in *; lra.
Qed.

Lemma clamp_Q_low (x : Q) : x <= 0 -> py_max 0 (py_min 100 x) == 0.
Proof.
  intros L.
  destruct (py_max_Q 0 (py_min 100 x)) as (A & B & [E | E]);
  destruct (py_min_Q 100 x) as (C & D & [F | F]);
  rewrite ?E, ?F in *; lra.
Qed.

Lemma clamp_Q_high (x : Q) : 100 <= x -> py_max 0 (py_min 100 x) == 100.
Proof.
  intros L.
  destruct (py_max_Q 0 (py_min 100 x)) as (A & B & [E | E]);
  destruct (py_min_Q 100 x) as (C & D & [F | F]);
  rewrite ?E, ?F in *; lra.
Qed.

Lemma inject_Z_minus (a b : Z) : inject_Z (a - b) == inject_Z a - inject_Z b.
Proof. unfold Qeq, Qminus, Qplus, Qopp, inject_Z; cbn [Qnum Qden]. lia. Qed.

(** Rounding to one decimal moves two numbers at most one tenth further
    apart. *)
Lemma round1_Q_gap (x y d : Q) (k : Z) :
  y - x <= d -> d * 10 + 1 < inject_Z (k + 1) ->
  round1 y - round1 x <= inject_Z k * (1 # 10).
Proof.
  intros G K. rewrite !round1_Q_eq.
  pose proof (Qrint_upper (y * 10)) as U. pose proof (Qrint_lower (x * 10)) as L.
  assert (Z : (Qrint (y * 10) - Qrint (x * 10) <= k)%Z).
  { destruct (Z.le_gt_cases (Qrint (y * 10) - Qrint (x * 10)) k) as [|Gt]; [assumption|exfalso].
    assert (S : inject_Z (k + 1) <= inject_Z (Qrint (y * 10) - Qrint (x * 10)))
      by (rewrite <- Zle_Qle; lia).
    rewrite inject_Z_minus in S. lra. }
  rewrite Zle_Qle, inject_Z_minus in Z. lra.
Qed.

Lemma mood_raw_penalty (p n : Q) (e : Series Q) :
  mood_raw p n e == 50 + (p - n) * (1 # 2) - negative_emotion_total e * (3 # 80).
Proof.
  unfold mood_raw, negative_emotion_total, Qdiv.
  change (/ 4) with (1 # 4). change (/ 10) with (1 # 10). change (/ 2) with (1 # 2).
  generalize (0 + get e "anger" 0 + get e "disgust" 0 + get e "fear" 0 + get e "sadness" 0).
  intros g. lra.
Qed.

End MoodLaws.

(** X3.  In exact arithmetic, the emotion Distribution enters [mood_score]
    only through the sum of its entries for anger, disgust, fear and sadness:
    a larger sum never gives a larger score, and a sum between 0 and 100
    lowers the score of the same sentiments without emotions by at most 3.8
    points. *)
Theorem mood_score_emotion_penalty (s e e' : Series Q) :
  ((negative_emotion_total e <= negative_emotion_total e')%Q ->
   (mood_score s e' <= mood_score s e)%Q)
  /\ ((0 <= negative_emotion_total e <= 100)%Q ->
      (mood_score s [] - 3.8 <= mood_score s e <= mood_score s [])%Q).
Proof.
  rewrite !mood_score_Q_eq.
  set (p := get s "POSITIVE" 0%Q). set (n := get s "NEGATIVE" 0%Q).
  pose proof (mood_raw_penalty p n e) as Re.
  pose proof (mood_raw_penalty p n e') as Re'.
  pose proof (mood_raw_penalty p n []) as R0.
  change (negative_emotion_total []) with (0 + 0 + 0 + 0 + 0)%Q in R0.
  split.
  - intros L. apply round1_Q_mono, clamp_Q_mono. lra.
  - intros [L U]. split.
    + assert (G : (round1 (py_max 0 (py_min 100 (mood_raw p n [])))
                   - round1 (py_max 0 (py_min 100 (mood_raw p n e)))
                   <= inject_Z 38 * (1 # 10))%Q).
      { apply round1_Q_gap with (d := (15 # 4)%Q).
        - eapply Qle_trans; [apply clamp_Q_lipschitz; lra | lra].
        - reflexivity. }
      change (inject_Z 38) with 38%Q in G. lra.
    + apply round1_Q_mono, clamp_Q_mono. lra.
Qed.

Lemma mood_score_emotion_penalty_witness :
  (mood_score [("POSITIVE", 60); ("NEGATIVE", 30)] [("anger", 50); ("joy", 50)]
   <= mood_score [("POSITIVE", 60); ("NEGATIVE", 30)] [("anger", 20); ("joy", 80)])%Q
  /\ (mood_score [("POSITIVE", 60); ("NEGATIVE", 30)] [] - 3.8
      <= mood_score [("POSITIVE", 60); ("NEGATIVE", 30)] [("anger", 50); ("joy", 50)])%Q.
Proof.
  split.
  - apply (proj1 (mood_score_emotion_penalty [("POSITIVE", 60%Q); ("NEGATIVE", 30%Q)]
                    [("anger", 20%Q); ("joy", 80%Q)] [("anger", 50%Q); ("joy", 50%Q)])).
    vm_compute. discriminate.
  - apply (proj2 (mood_score_emotion_penalty [("POSITIVE", 60%Q); ("NEGATIVE", 30%Q)]
                    [("anger", 50%Q); ("joy", 50%Q)] [])).
    split; vm_compute; discriminate.
Defined.

Section MoodOfCorpus.
Local Open Scope Q_scope.

Lemma count_all (labels : list string) (x : string) :
  (forall y, In y labels -> y = x) -> count_label labels x = List.length labels.
Proof.
  unfold count_label. induction labels as [|a l IH]; intros Hall; cbn; [reflexivity|].
  destruct (string_dec a x) as [_ | Hne].
  - f_equal. apply IH. intros y Hy. apply Hall. now right.
  - exfalso. apply Hne. apply Hall. now left.
Qed.

(** The exact share of a label in a column is between 0 and 100, and is 100
    when every row carries the label. *)
Lemma percentage_Q_range (labels : list string) (x : string) :
  0 <= percentage (num:=Q) labels x <= 100.
Proof.
  unfold percentage, count_label. cbn [mul div of_int Number_Q].
  pose proof (count_occ_bound string_dec x labels) as B.
  destruct labels as [|a l].
  - cbn. split; discriminate.
  - apply share_bounds; cbn [List.length] in *; lia.
Qed.

Lemma percentage_Q_all (labels : list string) (x : string) :
  labels <> [] -> (forall y, In y labels -> y = x) -> percentage (num:=Q) labels x == 100.
Proof.
  intros Hne Hall. unfold percentage. rewrite (count_all labels x Hall).
  cbn [mul div of_int Number_Q]. apply share_full.
  destruct labels; [congruence | cbn [List.length]; lia].
Qed.

Lemma get_pct_Q_range (labels : list string) (x : string) :
  0 <= get (value_counts_pct (num:=Q) labels) x 0 <= 100.
Proof.
  destruct (in_dec string_dec x labels) as [Hin | Hout].
  - rewrite (proj1 (get_value_counts_pct labels x 0) Hin). apply percentage_Q_range.
  - rewrite (proj2 (get_value_counts_pct labels x 0) Hout). split; discriminate.
Qed.

End MoodOfCorpus.

(** X4.  In exact arithmetic, for every non-empty corpus: when every document
    is POSITIVE and none carries anger, disgust, fear or sadness, the mood
    score of its Distributions is 100; when every document is NEGATIVE, it
    is 0 whatever the emotions are. *)
Theorem mood_score_extremes (df : DataFrame) :
  rows df <> [] ->
  let sentiment_pct := fst (compute_distributions (num:=Q) df) in
  let emotion_pct := snd (compute_distributions (num:=Q) df) in
  ((forall d, In d (rows df) ->
      sentiment d = "POSITIVE" /\ ~ In (emotion d) neg_emotions) ->
   (mood_score sentiment_pct emotion_pct == 100)%Q)
  /\ ((forall d, In d (rows df) -> sentiment d = "NEGATIVE") ->
      (mood_score sentiment_pct emotion_pct == 0)%Q).
Proof.
  intros Hne. cbv zeta. unfold compute_distributions. cbn [fst snd].
  set (S := map sentiment (rows df)). set (E := map emotion (rows df)).
  assert (HS : S <> []) by (subst S; destruct (rows df); [congruence | discriminate]).
  rewrite mood_score_Q_eq.
  pose proof (mood_raw_penalty (get (value_counts_pct S) "POSITIVE" 0%Q)
                (get (value_counts_pct S) "NEGATIVE" 0%Q) (value_counts_pct E)) as R.
  split.
  - intros Hall.
    assert (HP : (get (value_counts_pct (num:=Q) S) "POSITIVE" 0 == 100)%Q).
    { rewrite (proj1 (get_value_counts_pct S "POSITIVE" 0%Q)).
      - apply percentage_Q_all; [assumption|]. subst S. intros y Hy.
        apply in_map_iff in Hy. destruct Hy as (d & <- & Hd). now apply Hall.
      - destruct S as [|y S'] eqn:ES; [congruence|]. left.
        assert (Hy : In y (map sentiment (rows df))) by (fold S; rewrite ES; now left).
        apply in_map_iff in Hy. destruct Hy as (d & <- & Hd). now apply Hall. }
    assert (HN : get (value_counts_pct (num:=Q) S) "NEGATIVE" 0%Q = 0%Q).
    { apply (proj2 (get_value_counts_pct S "NEGATIVE" 0%Q)). subst S. intros Hin.
      apply in_map_iff in Hin. destruct Hin as (d & Ed & Hd).
      destruct (Hall d Hd) as [Ep _]. congruence. }
    assert (HE : forall x, In x neg_emotions -> get (value_counts_pct (num:=Q) E) x 0%Q = 0%Q).
    { intros x Hx. apply (proj2 (get_value_counts_pct E x 0%Q)). subst E. intros Hin.
      apply in_map_iff in Hin. destruct Hin as (d & Ed & Hd).
      destruct (Hall d Hd) as [_ Hn]. apply Hn. now rewrite Ed. }
    assert (HT : (negative_emotion_total (value_counts_pct E) == 0)%Q).
    { unfold negative_emotion_total.
      rewrite !HE by (cbn; tauto). reflexivity. }
    apply Qeq_trans with (round1 (inject_Z 100)); [|apply round1_Q_inject].
    apply round1_Q_proper, clamp_Q_high. rewrite R, HP, HN, HT. discriminate.
  - intros Hall.
    assert (HN : (get (value_counts_pct (num:=Q) S) "NEGATIVE" 0 == 100)%Q).
    { rewrite (proj1 (get_value_counts_pct S "NEGATIVE" 0%Q)).
      - apply percentage_Q_all; [assumption|]. subst S. intros y Hy.
        apply in_map_iff in Hy. destruct Hy as (d & <- & Hd). now apply Hall.
      - destruct S as [|y S'] eqn:ES; [congruence|]. left.
        assert (Hy : In y (map sentiment (rows df))) by (fold S; rewrite ES; now left).
        apply in_map_iff in Hy. destruct Hy as (d & <- & Hd). now apply Hall. }
    assert (HP : get (value_counts_pct (num:=Q) S) "POSITIVE" 0%Q = 0%Q).
    { apply (proj2 (get_value_counts_pct S "POSITIVE" 0%Q)). subst S. intros Hin.
      apply in_map_iff in Hin. destruct Hin as (d & Ed & Hd).
      rewrite (Hall d Hd) in Ed. discriminate Ed. }
    assert (HT : (0 <= negative_emotion_total (value_counts_pct E))%Q).
    { unfold negative_emotion_total.
      pose proof (get_pct_Q_range E "anger"). pose proof (get_pct_Q_range E "disgust").
      pose proof (get_pct_Q_range E "fear"). pose proof (get_pct_Q_range E "sadness").
      lra. }
    apply Qeq_trans with (round1 (inject_Z 0)); [|apply round1_Q_inject].
    apply round1_Q_proper, clamp_Q_low. rewrite R, HP, HN. lra.
Qed.

Lemma mood_score_extremes_witness :
  (mood_score (fst (compute_distributions (num:=Q)
                      {| has_topic := false; rows := [doc "POSITIVE" "joy" 0] |}))
              (snd (compute_distributions (num:=Q)
                      {| has_topic := false; rows := [doc "POSITIVE" "joy" 0] |})) == 100)%Q
  /\ (mood_score (fst (compute_distributions (num:=Q)
                         {| has_topic := false; rows := [doc "NEGATIVE" "anger" 0] |}))
                 (snd (compute_distributions (num:=Q)
                         {| has_topic := false; rows := [doc "NEGATIVE" "anger" 0] |})) == 0)%Q.
Proof.
  split.
  - apply (proj1 (mood_score_extremes
                    {| has_topic := false; rows := [doc "POSITIVE" "joy" 0] |}
                    ltac:(discriminate))).
    intros d [<- | []]. split; [reflexivity|].
    cbn. intros [E | [E | [E | [E | []]]]]; discriminate E.
  - apply (proj2 (mood_score_extremes
                    {| has_topic := false; rows := [doc "NEGATIVE" "anger" 0] |}
                    ltac:(discriminate))).
    intros d [<- | []]. reflexivity.
Defined.

(** ** Further properties of the Volatility Scorer *)

Section VolatilityLaws.
Local Open Scope Q_scope.

Lemma volatility_Q_eq (k : string) (v : Q) (t : Series Q) :
  volatility_index ((k, v) :: t)
  = round1 (100 * (1 - (series_max v t - series_min v t) / 100)).
Proof. reflexivity. Qed.

Lemma series_max_Q (v : Q) (t : Series Q) :
  In (series_max v t) (v :: values t)
  /\ forall x, In x (v :: values t) -> x <= series_max v t.
Proof. exact (fold_max_Q (values t) v). Qed.

Lemma series_min_Q (v : Q) (t : Series Q) :
  In (series_min v t) (v :: values t)
  /\ forall x, In x (v :: values t) -> series_min v t <= x.
Proof. exact (fold_min_Q (values t) v). Qed.

Lemma volatility_Q_range (e : Series Q) :
  (forall v, In v (values e) -> 0 <= v <= 100) -> 0 <= volatility_index e <= 100.
Proof.
  destruct e as [|[k v] t]; intros Hall.
  - cbn. split; discriminate.
  - rewrite volatility_Q_eq.
    destruct (series_max_Q v t) as [HM _].
    destruct (series_min_Q v t) as [Hm Hmin].
    pose proof (Hmin _ HM) as Hle.
    destruct (Hall _ HM) as [BM1 BM2]. destruct (Hall _ Hm) as [Bm1 Bm2].
    apply round1_Q_bounds. unfold Qdiv. change (/ 100) with (1 # 100). split; lra.
Qed.

Lemma volatility_Q_flat (e : Series Q) (p : Q) :
  e <> [] -> (forall v, In v (values e) -> v == p) -> volatility_index e == 100.
Proof.
  destruct e as [|[k v] t]; intros Hne Hall; [congruence|].
  rewrite volatility_Q_eq.
  destruct (series_max_Q v t) as [HM _].
  destruct (series_min_Q v t) as [Hm _].
  pose proof (Hall _ HM) as EM. pose proof (Hall _ Hm) as Em.
  apply Qeq_trans with (round1 (inject_Z 100)); [|apply round1_Q_inject].
  apply round1_Q_proper. unfold Qdiv. change (/ 100) with (1 # 100).
  change (inject_Z 100) with 100. lra.
Qed.

End VolatilityLaws.

(** X5.  In exact arithmetic, for every corpus, the volatility index of its
    emotion Distribution lies between 0 and 100. *)
Theorem volatility_of_corpus_range (df : DataFrame) :
  (0 <= volatility_index (snd (compute_distributions (num:=Q) df)) <= 100)%Q.
Proof.
  unfold compute_distributions. cbn [snd]. apply volatility_Q_range.
  intros v Hv. apply value_counts_pct_range in Hv. split; [apply Qlt_le_weak|]; tauto.
Qed.

(** X6.  In exact arithmetic, for every non-empty corpus whose observed
    emotions are all equally frequent, in particular when all documents carry
    the same emotion, the volatility index is 100. *)
Theorem volatility_even_emotions (df : DataFrame) :
  rows df <> [] ->
  (forall a b, In a (rows df) -> In b (rows df) ->
     count_label (map emotion (rows df)) (emotion a)
     = count_label (map emotion (rows df)) (emotion b)) ->
  (volatility_index (snd (compute_distributions (num:=Q) df)) == 100)%Q.
Proof.
  intros Hne Heven. unfold compute_distributions. cbn [snd].
  destruct (rows df) as [|d0 l] eqn:Erows; [congruence|].
  apply volatility_Q_flat with (p := percentage (map emotion (d0 :: l)) (emotion d0)).
  - intros E. assert (Hin : In (emotion d0, percentage (num:=Q) (map emotion (d0 :: l)) (emotion d0))
                              (value_counts_pct (map emotion (d0 :: l)))).
    { apply value_counts_pct_In. split; [now left | reflexivity]. }
    rewrite E in Hin. destruct Hin.
  - intros v Hv. unfold values in Hv. apply in_map_iff in Hv.
    destruct Hv as ([x w] & <- & Hin). apply value_counts_pct_In in Hin.
    destruct Hin as [Hx ->]. cbn [snd].
    apply in_map_iff in Hx. destruct Hx as (a & <- & Ha).
    unfold percentage. rewrite (Heven a d0 Ha (or_introl eq_refl)). reflexivity.
Qed.

Lemma volatility_even_emotions_witness :
  (volatility_index (snd (compute_distributions (num:=Q) tied_emotions)) == 100)%Q.
Proof.
  apply (volatility_even_emotions tied_emotions ltac:(discriminate)).
  intros a b [<- | [<- | []]] [<- | [<- | []]]; reflexivity.
Defined.

(** ** Further properties of the Topic-Emotion Correlator *)

Section CorrelatorLaws.
Local Open Scope nat_scope.

Lemma NoDup_flat_map {A B} (f : A -> list B) (l : list A) :
  NoDup l ->
  (forall x, In x l -> NoDup (f x)) ->
  (forall x y z, In x l -> In y l -> In z (f x) -> In z (f y) -> x = y) ->
  NoDup (flat_map f l).
Proof.
  induction l as [|a l IH]; intros Hl Hf Hdisj; cbn [flat_map]; [constructor|].
  inversion Hl as [|? ? Ha Hl']; subst.
  apply NoDup_app.
  - apply Hf. now left.
  - apply IH; [assumption | |].
    + intros x Hx. apply Hf. now right.
    + intros x y z Hx Hy. apply Hdisj; now right.
  - intros z Hz Hz'. apply in_flat_map in Hz'. destruct Hz' as (y & Hy & Hzy).
    apply Ha. rewrite (Hdisj a y z); [assumption | now left | now right | assumption..].
Qed.

Lemma map_flat_map {A B C} (g : B -> C) (f : A -> list B) (l : list A) :
  map g (flat_map f l) = flat_map (fun x => map g (f x)) l.
Proof.
  induction l as [|a l IH]; cbn [flat_map map]; [reflexivity|].
  now rewrite map_app, IH.
Qed.

Lemma select_topic_emotion_count (df : DataFrame) (t : Z) (x : string) :
  count_label (map emotion (select_topic df t)) x = documents_with_topic_emotion df t x.
Proof.
  unfold select_topic, documents_with_topic_emotion, count_label.
  induction (rows df) as [|d l IH]; cbn [filter map count_occ List.length]; [reflexivity|].
  destruct (topic d =? t)%Z; cbn [andb map count_occ]; [|exact IH].
  destruct (string_dec (emotion d) x) as [E | E].
  - apply String.eqb_eq in E. rewrite E. cbn [List.length]. now rewrite IH.
  - apply String.eqb_neq in E. rewrite E. exact IH.
Qed.

Lemma select_topic_sentiment_count (df : DataFrame) (t : Z) (x : string) :
  count_sentiment (select_topic df t) x = documents_with_topic_sentiment df t x.
Proof.
  unfold select_topic, documents_with_topic_sentiment, count_sentiment.
  induction (rows df) as [|d l IH]; cbn [filter List.length]; [reflexivity|].
  destruct (topic d =? t)%Z; cbn [andb filter]; [|exact IH].
  destruct (String.eqb (sentiment d) x); cbn [List.length]; now rewrite IH.
Qed.

Context {num : Type} `{Number num}.

(** The entries [topic_emotion_correlation] appends for one topic id. *)
Lemma correlation_entry_inv (df : DataFrame) (table : list (CorrelationEntry num))
  (entry : CorrelationEntry num) :
  topic_emotion_correlation df = Some table ->
  In entry table ->
  In (ce_topic entry) (map topic (rows df))
  /\ ce_topic entry <> (-1)%Z
  /\ In (ce_emotion entry) (map emotion (select_topic df (ce_topic entry)))
  /\ ce_percentage entry
     = pyfloat_round1
         (percentage (map emotion (select_topic df (ce_topic entry))) (ce_emotion entry)).
Proof.
  unfold topic_emotion_correlation.
  destruct (has_topic df); cbn [negb]; [|discriminate].
  intros E Hin. inversion E; subst; clear E.
  apply in_flat_map in Hin. destruct Hin as (t & Ht & Hin).
  apply (proj1 (unique_In Z.eqb Z.eqb_eq _ _)) in Ht.
  destruct (Z.eqb_spec t (-1)) as [|Hne]; [destruct Hin|].
  apply in_map_iff in Hin. destruct Hin as ([x v] & <- & Hxv).
  apply value_counts_pct_In in Hxv. destruct Hxv as [Hx ->].
  cbn [ce_topic ce_emotion ce_percentage fst snd]. repeat split; assumption.
Qed.

End CorrelatorLaws.

(** X7.  For every corpus with a topic column, the table of
    [topic_emotion_correlation] has at most one entry per pair of topic and
    emotion, so that it can be pivoted into a topic by emotion table, and it
    has an entry for the topic and emotion of every document whose topic is
    not -1. *)
Theorem correlation_pairs_unique_and_complete (num : Type) (N : Number num)
  (df : DataFrame) (table : list (CorrelationEntry num)) :
  topic_emotion_correlation df = Some table ->
  NoDup (map (fun entry => (ce_topic entry, ce_emotion entry)) table)
  /\ (forall d, In d (rows df) -> topic d <> -1 ->
        exists entry, In entry table
                      /\ ce_topic entry = topic d /\ ce_emotion entry = emotion d).
Proof.
  unfold topic_emotion_correlation.
  destruct (has_topic df); cbn [negb]; [|discriminate].
  intros E. inversion E; subst; clear E. split.
  - rewrite map_flat_map. apply NoDup_flat_map.
    + apply (unique_NoDup Z.eqb Z.eqb_eq).
    + intros t _. destruct (t =? -1); [constructor|].
      rewrite map_map. cbn [ce_topic ce_emotion].
      rewrite <- (map_map fst (fun k => (t, k))).
      apply (NoDup_map_inv snd). rewrite map_map. cbn [snd]. rewrite map_id.
      rewrite value_counts_pct_keys. apply value_counts_keys_NoDup.
    + intros t t' z _ _ Hz Hz'.
      destruct (t =? -1); [destruct Hz|]. destruct (t' =? -1); [destruct Hz'|].
      apply in_map_iff in Hz. destruct Hz as (e & <- & He).
      apply in_map_iff in He. destruct He as (ep & <- & _).
      apply in_map_iff in Hz'. destruct Hz' as (e' & Ee' & He').
      apply in_map_iff in He'. destruct He' as (ep' & <- & _).
      cbn [ce_topic ce_emotion] in Ee'. congruence.
  - intros d Hd Hne.
    exists {| ce_topic := topic d; ce_emotion := emotion d;
              ce_percentage :=
                pyfloat_round1
                  (percentage (map emotion (select_topic df (topic d))) (emotion d)) |}.
    split; [|split; reflexivity].
    apply in_flat_map. exists (topic d). split.
    + apply (unique_In Z.eqb Z.eqb_eq). apply in_map. exact Hd.
    + destruct (Z.eqb_spec (topic d) (-1)) as [|_]; [congruence|].
      apply in_map_iff.
      exists (emotion d, percentage (map emotion (select_topic df (topic d))) (emotion d)).
      split; [reflexivity|]. apply value_counts_pct_In. split; [|reflexivity].
      apply in_map. apply select_topic_In. now split.
Qed.

Lemma correlation_pairs_unique_and_complete_witness :
  exists table,
    topic_emotion_correlation (num:=float) two_topics = Some table
    /\ NoDup (map (fun entry => (ce_topic entry, ce_emotion entry)) table).
Proof.
  eexists. split; [reflexivity|].
  apply (proj1 (correlation_pairs_unique_and_complete float Number_float two_topics _ eq_refl)).
Defined.

(** X8.  For every corpus with a topic column, every entry of
    [topic_emotion_correlation] is for a topic and an emotion that at least
    one document carries together, and its percentage is the number of
    documents with that topic and emotion divided by the number of documents
    with that topic, times 100, rounded to one decimal by the [round] of
    Python floats: the computed share itself is rounded, halves to even. *)
Theorem correlation_percentage_is_share (num : Type) (N : Number num)
  (df : DataFrame) (table : list (CorrelationEntry num)) (entry : CorrelationEntry num) :
  topic_emotion_correlation df = Some table ->
  In entry table ->
  (1 <= documents_with_topic_emotion df (ce_topic entry) (ce_emotion entry))%nat
  /\ ce_percentage entry
     = pyfloat_rounded_share
         (documents_with_topic_emotion df (ce_topic entry) (ce_emotion entry))
         (documents_with_topic df (ce_topic entry)).
Proof.
  intros E Hin. destruct (correlation_entry_inv df table entry E Hin) as (_ & _ & Hx & ->).
  rewrite <- select_topic_emotion_count, <- select_topic_length. split.
  - apply (count_occ_In string_dec) in Hx. unfold count_label. lia.
  - unfold pyfloat_rounded_share, percentage. now rewrite length_map.
Qed.

Lemma correlation_percentage_is_share_witness :
  exists table entry,
    topic_emotion_correlation (num:=float) two_topics = Some table
    /\ In entry table
    /\ ce_percentage entry
       = pyfloat_rounded_share
           (documents_with_topic_emotion two_topics (ce_topic entry) (ce_emotion entry))
           (documents_with_topic two_topics (ce_topic entry)).
Proof.
  eexists. eexists. split; [reflexivity|]. split; [left; reflexivity|].
  apply (correlation_percentage_is_share float Number_float two_topics _ _ eq_refl).
  left; reflexivity.
Defined.

(** In binary64 the rounding of Python floats is not the one of numpy floats:
    for 3 angry documents among the 2000 of a topic the table holds 0.1,
    where scaling by ten and rounding to the nearest integer gives 0.2. *)
Lemma correlation_rounds_exact_value :
  topic_emotion_correlation (num:=float) two_thousand
  = Some [ {| ce_topic := 0; ce_emotion := "joy"; ce_percentage := 99.9%float |};
           {| ce_topic := 0; ce_emotion := "anger"; ce_percentage := 0.1%float |} ]
  /\ rounded_share (num:=float) 3 2000 = 0.2%float
  /\ pyfloat_rounded_share (num:=float) 3 2000 = 0.1%float.
Proof.
  repeat split; vm_compute; reflexivity.
Qed.

(** On exact rationals the two roundings are the same function. *)
Lemma pyfloat_round1_Q (x : Q) : pyfloat_round1 x = round1 x.
Proof. reflexivity. Qed.

(** ** Further properties of the Narrative Detector *)

Section NarrativeLaws.
Local Open Scope nat_scope.

Lemma insert_desc_sorted {A} (key : A -> nat) (a : A) (l : list A) :
  Sorted (fun x y => key y <= key x) l ->
  Sorted (fun x y => key y <= key x) (insert_desc key a l).
Proof.
  induction l as [|b t IH]; intros Hs; cbn [insert_desc].
  - repeat constructor.
  - inversion Hs as [|? ? Ht Hb]; subst.
    destruct (Nat.ltb_spec (key a) (key b)) as [Lt | Ge].
    + constructor; [now apply IH|].
      destruct t as [|c t']; cbn [insert_desc].
      * constructor. lia.
      * inversion Hb; subst.
        destruct (key a <? key c); constructor; [assumption | lia].
    + constructor; [assumption|]. constructor. lia.
Qed.

Lemma sort_desc_sorted {A} (key : A -> nat) (l : list A) :
  sorted_desc key (sort_desc key l).
Proof.
  unfold sorted_desc. apply Sorted_StronglySorted.
  - intros x y z Hxy Hyz. lia.
  - induction l as [|a t IH]; cbn [sort_desc fold_right]; [constructor|].
    now apply insert_desc_sorted.
Qed.

Context {num : Type} `{Number num}.

(** The name and the sentiment score of the summary one turn of the loop of
    [detect_narratives] appends. *)
Lemma narrative_of_score (df : DataFrame) (named : bool) (row : TopicRow)
  (s : TopicSummary num) :
  In s (narrative_of df named row) ->
  let docs := select_topic df (Topic row) in
  narrative s = (if named then Name row else default_topic_name (Topic row))
  /\ sentiment_score s
     = round1 (mul (div (of_int (Z.of_nat (count_sentiment docs "POSITIVE")
                                 - Z.of_nat (count_sentiment docs "NEGATIVE")))
                        (of_int (Z.of_nat (List.length docs))))
                   (of_int 100)).
Proof.
  unfold narrative_of. cbv zeta.
  destruct (Z.eqb_spec (Topic row) (-1)) as [|Hne]; [intros []|].
  destruct (select_topic df (Topic row)) as [|d l] eqn:Edocs; [intros []|].
  cbn [List.length Nat.eqb Nat.ltb Nat.leb].
  assert (Hpos : (0 <? Z.of_nat (S (List.length l)))%Z = true) by (apply Z.ltb_lt; lia).
  rewrite Hpos. intros [<- | []]. cbn -[count_sentiment mode round1 Z.of_nat Z.sub].
  split; reflexivity.
Qed.

Lemma narrative_of_complete (df : DataFrame) (named : bool) (row : TopicRow) :
  Topic row <> (-1)%Z -> 1 <= documents_with_topic df (Topic row) ->
  exists s : TopicSummary num, narrative_of df named row = [s].
Proof.
  intros Hne Hdocs. rewrite <- select_topic_length in Hdocs.
  unfold narrative_of. cbv zeta.
  destruct (Z.eqb_spec (Topic row) (-1)) as [|_]; [congruence|].
  destruct (select_topic df (Topic row)) as [|d l]; [cbn in Hdocs; lia|].
  cbn [List.length Nat.eqb]. eexists. reflexivity.
Qed.

End NarrativeLaws.

(** The frame [detect_narratives] returns: the sorted, non-empty list of the
    summaries the loop appended, under the seven columns. *)
Lemma detect_narratives_frame (num : Type) (N : Number num) (df : DataFrame)
  (info : TopicInfo) (fr : Frame (TopicSummary num)) :
  detect_narratives df (Some info) = Returns (Some fr) ->
  columns fr = summary_columns
  /\ records fr = sort_desc document_count (flat_map (narrative_of df (has_name info)) (topic_rows info))
  /\ records fr <> []
  /\ sorted_desc document_count (records fr).
Proof.
  unfold detect_narratives.
  destruct (has_topic df); [|discriminate].
  unfold sort_values_desc, pd_DataFrame. cbn [columns records].
  destruct (flat_map (narrative_of df (has_name info)) (topic_rows info)) as [|s0 l] eqn:Eflat; [discriminate|].
  cbn [existsb summary_columns]. intros E. inversion E; subst; clear E.
  cbn [columns records].
  split; [reflexivity|]. split; [reflexivity|]. split.
  - intros Enil. change (sort_desc document_count (s0 :: l) = []) in Enil.
    pose proof (sort_desc_perm document_count (s0 :: l)) as P.
    rewrite Enil in P. apply Permutation_nil in P. discriminate P.
  - apply (sort_desc_sorted document_count (s0 :: l)).
Qed.

(** X9.  Whenever [detect_narratives] returns a frame, the frame has the
    seven summary columns and at least one Topic Summary, the summaries are in
    non-increasing order of [document_count], none is for topic -1, each
    counts at least one document, and every row of the topic table whose
    topic is not -1 and has a document in the corpus has its summary, named
    by the row's [Name] or, without one, ["Topic <id>"].  This holds in any
    arithmetic. *)
Theorem narratives_frame_shape (num : Type) (N : Number num) (df : DataFrame)
  (info : TopicInfo) (fr : Frame (TopicSummary num)) :
  detect_narratives df (Some info) = Returns (Some fr) ->
  columns fr = summary_columns
  /\ records fr <> []
  /\ sorted_desc document_count (records fr)
  /\ (forall s, In s (records fr) -> topic_id s <> -1 /\ (1 <= document_count s)%nat)
  /\ (forall row, In row (topic_rows info) -> Topic row <> -1 ->
        (1 <= documents_with_topic df (Topic row))%nat ->
        exists s, In s (records fr)
                  /\ topic_id s = Topic row
                  /\ narrative s = (if has_name info then Name row
                                   else default_topic_name (Topic row))).
Proof.
  intros Hret.
  destruct (detect_narratives_frame num N df info fr Hret) as (Hcols & Hrec & Hne & Hsorted).
  split; [assumption|]. split; [assumption|]. split; [assumption|]. split.
  - intros s Hs.
    destruct (detect_narratives_records df (Some info) _ s Hret Hs)
      as (info' & row & _ & _ & Hrow).
    apply narrative_of_inv in Hrow. cbv zeta in Hrow.
    destruct Hrow as (Hne' & Hdocs & Eid & Ecount & _).
    rewrite Eid, Ecount. split; [assumption|].
    destruct (select_topic df (Topic row)); [congruence | cbn [List.length]; lia].
  - intros row Hrow Hne' Hdocs.
    destruct (narrative_of_complete (num:=num) df (has_name info) row Hne' Hdocs) as (s & Es).
    assert (Hs : In s (narrative_of df (has_name info) row)) by (rewrite Es; now left).
    exists s. split; [|split].
    + rewrite Hrec. apply sort_desc_In. apply in_flat_map. now exists row.
    + apply narrative_of_inv in Hs. cbv zeta in Hs. tauto.
    + apply narrative_of_score in Hs. cbv zeta in Hs. tauto.
Qed.

Lemma narratives_frame_shape_witness :
  exists fr,
    detect_narratives (num:=float) two_topics (Some two_topics_unnamed) = Returns (Some fr)
    /\ map narrative (records fr) = ["Topic 1"; "Topic 0"]
    /\ sorted_desc document_count (records fr).
Proof.
  eexists.
  assert (E : detect_narratives (num:=float) two_topics (Some two_topics_unnamed)
              = Returns (Some ?[fr])) by (vm_compute; reflexivity).
  split; [exact E|]. split; [reflexivity|].
  apply (proj1 (proj2 (proj2 (narratives_frame_shape float Number_float two_topics
                                two_topics_unnamed _ E)))).
Defined.

(** With a [Name] column the summaries carry the names of the table. *)
Lemma narratives_named :
  exists fr,
    detect_narratives (num:=float) two_topics (Some two_topics_info) = Returns (Some fr)
    /\ map narrative (records fr) = ["1_refund"; "0_launch"].
Proof.
  eexists. split; [vm_compute; reflexivity | reflexivity].
Qed.

Section ExactNarratives.
Local Open Scope Q_scope.

Lemma round1_Q_between (lo hi : Z) (x : Q) :
  inject_Z lo <= x <= inject_Z hi -> inject_Z lo <= round1 x <= inject_Z hi.
Proof.
  intros [L U]. split.
  - rewrite <- (round1_Q_inject lo). now apply round1_Q_mono.
  - rewrite <- (round1_Q_inject hi). now apply round1_Q_mono.
Qed.

(** A signed share [(p - n) / t * 100] is the difference of two shares. *)
Lemma signed_share (p n t : Z) :
  inject_Z (p - n) / inject_Z t * inject_Z 100
  == inject_Z p / inject_Z t * inject_Z 100 - inject_Z n / inject_Z t * inject_Z 100.
Proof. rewrite inject_Z_minus. unfold Qdiv. lra. Qed.

(** The three scores of a Topic Summary computed from the counts [p] and [n]
    of positive and negative documents among [t]. *)
Lemma scores_of_counts (p n t : Z) :
  (0 <= p)%Z -> (0 <= n)%Z -> (p + n <= t)%Z -> (0 < t)%Z ->
  let score := round1 (inject_Z (p - n) / inject_Z t * inject_Z 100) in
  let pos := round1 (inject_Z p / inject_Z t * inject_Z 100) in
  let neg := round1 (inject_Z n / inject_Z t * inject_Z 100) in
  (-100 <= score <= 100)
  /\ (0 <= pos <= 100) /\ (0 <= neg <= 100)
  /\ (pos - neg - (1 # 10) <= score <= pos - neg + (1 # 10))
  /\ ((n <= p)%Z -> 0 <= score)
  /\ ((p <= n)%Z -> score <= 0).
Proof.
  intros Hp Hn Hpn Ht. cbv zeta.
  pose proof (signed_share p n t) as E.
  pose proof (share_bounds p t ltac:(lia) Ht) as [P0 P1].
  pose proof (share_bounds n t ltac:(lia) Ht) as [N0 N1].
  set (A := inject_Z p / inject_Z t * inject_Z 100) in *.
  set (B := inject_Z n / inject_Z t * inject_Z 100) in *.
  set (X := inject_Z (p - n) / inject_Z t * inject_Z 100) in *.
  split; [|split; [|split; [|split; [|split]]]].
  - apply (round1_Q_between (-100) 100). change (inject_Z (-100)) with (-100).
    change (inject_Z 100) with 100. split; lra.
  - apply (round1_Q_between 0 100). change (inject_Z 0) with 0.
    change (inject_Z 100) with 100. split; lra.
  - apply (round1_Q_between 0 100). change (inject_Z 0) with 0.
    change (inject_Z 100) with 100. split; lra.
  - rewrite !round1_Q_eq.
    pose proof (Qrint_upper (X * 10)). pose proof (Qrint_lower (X * 10)).
    pose proof (Qrint_upper (A * 10)). pose proof (Qrint_lower (A * 10)).
    pose proof (Qrint_upper (B * 10)). pose proof (Qrint_lower (B * 10)).
    assert (Z1 : (Qrint (X * 10) - (Qrint (A * 10) - Qrint (B * 10)) <= 1)%Z).
    { destruct (Z.le_gt_cases (Qrint (X * 10) - (Qrint (A * 10) - Qrint (B * 10))) 1)
        as [|Gt]; [assumption|exfalso].
      assert (S : inject_Z 2 <= inject_Z (Qrint (X * 10) - (Qrint (A * 10) - Qrint (B * 10))))
        by (rewrite <- Zle_Qle; lia).
      rewrite !inject_Z_minus in S. change (inject_Z 2) with 2 in S. lra. }
    assert (Z2 : (-1 <= Qrint (X * 10) - (Qrint (A * 10) - Qrint (B * 10)))%Z).
    { destruct (Z.le_gt_cases (-1) (Qrint (X * 10) - (Qrint (A * 10) - Qrint (B * 10))))
        as [|Gt]; [assumption|exfalso].
      assert (S : inject_Z (Qrint (X * 10) - (Qrint (A * 10) - Qrint (B * 10))) <= inject_Z (-2))
        by (rewrite <- Zle_Qle; lia).
      rewrite !inject_Z_minus in S. change (inject_Z (-2)) with (-2) in S. lra. }
    rewrite Zle_Qle, !inject_Z_minus in Z1, Z2.
    change (inject_Z 1) with 1 in Z1. change (inject_Z (-1)) with (-1) in Z2.
    split; lra.
  - intros L. assert (In0 : 0 <= inject_Z (p - n))
      by (change 0 with (inject_Z 0); rewrite <- Zle_Qle; lia).
    rewrite <- (round1_Q_inject 0). apply round1_Q_mono.
    change (inject_Z 0) with 0.
    assert (Ht' : 0 < inject_Z t) by (change 0 with (inject_Z 0); now rewrite <- Zlt_Qlt).
    assert (Hi : 0 < / inject_Z t) by now apply Qinv_lt_0_compat.
    assert (Pr : 0 <= inject_Z (p - n) * / inject_Z t) by (apply Qmult_le_0_compat; lra).
    subst X. unfold Qdiv. change (inject_Z 100) with 100. lra.
  - intros L. assert (In0 : inject_Z (p - n) <= 0)
      by (change 0 with (inject_Z 0); rewrite <- Zle_Qle; lia).
    rewrite <- (round1_Q_inject 0). apply round1_Q_mono.
    change (inject_Z 0) with 0.
    assert (Ht' : 0 < inject_Z t) by (change 0 with (inject_Z 0); now rewrite <- Zlt_Qlt).
    assert (Hi : 0 < / inject_Z t) by now apply Qinv_lt_0_compat.
    assert (Pr : 0 <= (- inject_Z (p - n)) * / inject_Z t) by (apply Qmult_le_0_compat; lra).
    subst X. unfold Qdiv. change (inject_Z 100) with 100. lra.
Qed.

End ExactNarratives.

Section SummaryCounts.
Context {num : Type} `{Number num}.

(** The scores of a Topic Summary of [detect_narratives] in terms of the
    counts of the corpus. *)
Lemma summary_scores (df : DataFrame) (topic_info : option TopicInfo)
  (fr : Frame (TopicSummary num)) (s : TopicSummary num) :
  detect_narratives df topic_info = Returns (Some fr) ->
  In s (records fr) ->
  let p := Z.of_nat (documents_with_topic_sentiment df (topic_id s) "POSITIVE") in
  let n := Z.of_nat (documents_with_topic_sentiment df (topic_id s) "NEGATIVE") in
  let t := Z.of_nat (documents_with_topic df (topic_id s)) in
  (0 < t /\ p + n <= t)
  /\ sentiment_score s = round1 (mul (div (of_int (p - n)) (of_int t)) (of_int 100))
  /\ positive_pct s = round1 (mul (div (of_int p) (of_int t)) (of_int 100))
  /\ negative_pct s = round1 (mul (div (of_int n) (of_int t)) (of_int 100)).
Proof.
  intros Hret Hs. cbv zeta.
  destruct (detect_narratives_records df topic_info fr s Hret Hs) as (info & row & _ & _ & Hrow).
  pose proof (narrative_of_score df _ row s Hrow) as Hscore. cbv zeta in Hscore.
  apply narrative_of_inv in Hrow. cbv zeta in Hrow.
  destruct Hrow as (_ & Hne & Eid & _ & _ & Epos & Eneg). destruct Hscore as [_ Escore].
  rewrite Eid, <- !select_topic_sentiment_count, <- select_topic_length.
  pose proof (count_sentiment_pos_neg (select_topic df (Topic row))) as B.
  repeat split; try assumption; try lia.
  destruct (select_topic df (Topic row)); [congruence | cbn [List.length]; lia].
Qed.

End SummaryCounts.

(** The sign of the exact sentiment score follows the counts. *)
Lemma narrative_scores_consistent_aux (df : DataFrame) (info : TopicInfo)
  (fr : Frame (TopicSummary Q)) (s : TopicSummary Q) :
  detect_narratives df (Some info) = Returns (Some fr) ->
  In s (records fr) ->
  ((documents_with_topic_sentiment df (topic_id s) "NEGATIVE"
    <= documents_with_topic_sentiment df (topic_id s) "POSITIVE")%nat ->
   (0 <= sentiment_score s)%Q)
  /\ ((documents_with_topic_sentiment df (topic_id s) "POSITIVE"
       <= documents_with_topic_sentiment df (topic_id s) "NEGATIVE")%nat ->
      (sentiment_score s <= 0)%Q).
Proof.
  intros Hret Hs.
  destruct (summary_scores df (Some info) fr s Hret Hs) as ([Ht Hpn] & -> & _ & _).
  pose proof (scores_of_counts
                (Z.of_nat (documents_with_topic_sentiment df (topic_id s) "POSITIVE"))
                (Z.of_nat (documents_with_topic_sentiment df (topic_id s) "NEGATIVE"))
                (Z.of_nat (documents_with_topic df (topic_id s)))
                ltac:(lia) ltac:(lia) Hpn Ht) as C.
  cbv zeta in C. destruct C as (_ & _ & _ & _ & C5 & C6).
  cbn [mul div of_int Number_Q]. split; intros L; [apply C5 | apply C6]; lia.
Qed.

(** X10.  In exact arithmetic, for every Topic Summary of [detect_narratives]:
    [sentiment_score] lies between -100 and 100, [positive_pct] and
    [negative_pct] lie between 0 and 100, [sentiment_score] differs from
    [positive_pct - negative_pct] by at most 0.1, and it is not negative when
    the topic has at least as many POSITIVE as NEGATIVE documents and not
    positive when it has at most as many. *)
Theorem narrative_scores_consistent (df : DataFrame) (info : TopicInfo)
  (fr : Frame (TopicSummary Q)) (s : TopicSummary Q) :
  detect_narratives df (Some info) = Returns (Some fr) ->
  In s (records fr) ->
  let p := documents_with_topic_sentiment df (topic_id s) "POSITIVE" in
  let n := documents_with_topic_sentiment df (topic_id s) "NEGATIVE" in
  (-100 <= sentiment_score s <= 100)%Q
  /\ (0 <= positive_pct s <= 100)%Q
  /\ (0 <= negative_pct s <= 100)%Q
  /\ (positive_pct s - negative_pct s - 0.1 <= sentiment_score s
      <= positive_pct s - negative_pct s + 0.1)%Q
  /\ ((n <= p)%nat -> (0 <= sentiment_score s)%Q)
  /\ ((p <= n)%nat -> (sentiment_score s <= 0)%Q).
Proof.
  intros Hret Hs. cbv zeta.
  destruct (summary_scores df (Some info) fr s Hret Hs) as ([Ht Hpn] & -> & -> & ->).
  pose proof (scores_of_counts
                (Z.of_nat (documents_with_topic_sentiment df (topic_id s) "POSITIVE"))
                (Z.of_nat (documents_with_topic_sentiment df (topic_id s) "NEGATIVE"))
                (Z.of_nat (documents_with_topic df (topic_id s)))
                ltac:(lia) ltac:(lia) Hpn Ht) as C.
  cbv zeta in C. destruct C as (C1 & C2 & C3 & C4 & C5 & C6).
  cbn [mul div of_int Number_Q].
  repeat split; try tauto.
  - intros L. apply C5. lia.
  - intros L. apply C6. lia.
Qed.

Lemma narrative_scores_consistent_witness :
  exists fr s,
    detect_narratives (num:=Q) two_topics (Some two_topics_info) = Returns (Some fr)
    /\ In s (records fr)
    /\ (-100 <= sentiment_score s <= 100)%Q
    /\ (positive_pct s - negative_pct s - 0.1 <= sentiment_score s
        <= positive_pct s - negative_pct s + 0.1)%Q.
Proof.
  eexists. eexists.
  assert (E : detect_narratives (num:=Q) two_topics (Some two_topics_info)
              = Returns (Some ?[fr])) by (vm_compute; reflexivity).
  split; [exact E|]. split; [left; reflexivity|].
  pose proof (narrative_scores_consistent two_topics two_topics_info _ _ E
                (or_introl eq_refl)) as T.
  cbv zeta in T. split; [exact (proj1 T) | exact (proj1 (proj2 (proj2 (proj2 T))))].
Defined.

Section HomogeneousTopics.
Local Open Scope nat_scope.

Lemma topic_sentiment_all (df : DataFrame) (t : Z) (x : string) :
  (forall d, In d (rows df) -> topic d = t -> sentiment d = x) ->
  documents_with_topic_sentiment df t x = documents_with_topic df t.
Proof.
  intros Hall. rewrite <- select_topic_sentiment_count, <- select_topic_length.
  unfold count_sentiment.
  assert (Hsel : forall d, In d (select_topic df t) -> sentiment d = x).
  { intros d Hd. apply select_topic_In in Hd. destruct Hd. now apply Hall. }
  induction (select_topic df t) as [|d l IH]; cbn [filter List.length]; [reflexivity|].
  rewrite (Hsel d (or_introl eq_refl)), String.eqb_refl. cbn [List.length].
  f_equal. apply IH. intros d' Hd'. apply Hsel. now right.
Qed.

Lemma topic_sentiment_none (df : DataFrame) (t : Z) (x : string) :
  (forall d, In d (rows df) -> topic d = t -> sentiment d <> x) ->
  documents_with_topic_sentiment df t x = 0.
Proof.
  intros Hall. unfold documents_with_topic_sentiment.
  induction (rows df) as [|d l IH]; cbn [filter List.length]; [reflexivity|].
  destruct (Z.eqb_spec (topic d) t) as [Et | _]; cbn [andb].
  - destruct (String.eqb_spec (sentiment d) x) as [Es | _].
    + exfalso. apply (Hall d (or_introl eq_refl) Et Es).
    + apply IH. intros d' Hd'. apply Hall. now right.
  - apply IH. intros d' Hd'. apply Hall. now right.
Qed.

End HomogeneousTopics.

(** X11.  In exact arithmetic, a Topic Summary of [detect_narratives] for a
    topic whose documents are all POSITIVE has sentiment score 100, positive
    percentage 100 and negative percentage 0; for a topic whose documents are
    all NEGATIVE it has sentiment score -100, positive percentage 0 and
    negative percentage 100. *)
Theorem homogeneous_topic_scores (df : DataFrame) (info : TopicInfo)
  (fr : Frame (TopicSummary Q)) (s : TopicSummary Q) :
  detect_narratives df (Some info) = Returns (Some fr) ->
  In s (records fr) ->
  ((forall d, In d (rows df) -> topic d = topic_id s -> sentiment d = "POSITIVE") ->
   (sentiment_score s == 100 /\ positive_pct s == 100 /\ negative_pct s == 0)%Q)
  /\ ((forall d, In d (rows df) -> topic d = topic_id s -> sentiment d = "NEGATIVE") ->
      (sentiment_score s == -100 /\ positive_pct s == 0 /\ negative_pct s == 100)%Q).
Proof.
  intros Hret Hs.
  destruct (summary_scores df (Some info) fr s Hret Hs) as ([Ht _] & -> & -> & ->).
  cbn [mul div of_int Number_Q].
  set (t := Z.of_nat (documents_with_topic df (topic_id s))) in *.
  assert (R100 : (round1 (inject_Z t / inject_Z t * inject_Z 100) == 100)%Q).
  { apply Qeq_trans with (round1 (inject_Z 100)); [|apply round1_Q_inject].
    apply round1_Q_proper, share_full, Ht. }
  assert (R0 : (round1 (inject_Z 0 / inject_Z t * inject_Z 100) == 0)%Q).
  { apply Qeq_trans with (round1 (inject_Z 0)); [|apply round1_Q_inject].
    apply round1_Q_proper, share_none. }
  assert (Rm : (round1 (inject_Z (0 - t) / inject_Z t * inject_Z 100) == -100)%Q).
  { apply Qeq_trans with (round1 (inject_Z (-100))); [|apply round1_Q_inject].
    apply round1_Q_proper. rewrite signed_share, share_full, share_none by exact Ht.
    reflexivity. }
  split; intros Hall.
  - rewrite (topic_sentiment_all df (topic_id s) "POSITIVE" Hall).
    rewrite (topic_sentiment_none df (topic_id s) "NEGATIVE")
      by (intros d Hd Et; rewrite (Hall d Hd Et); discriminate).
    fold t. change (Z.of_nat 0) with 0%Z. rewrite Z.sub_0_r. repeat split; assumption.
  - rewrite (topic_sentiment_all df (topic_id s) "NEGATIVE" Hall).
    rewrite (topic_sentiment_none df (topic_id s) "POSITIVE")
      by (intros d Hd Et; rewrite (Hall d Hd Et); discriminate).
    fold t. change (Z.of_nat 0) with 0%Z. repeat split; assumption.
Qed.

Lemma homogeneous_topic_scores_witness :
  exists fr s,
    detect_narratives (num:=Q) two_topics (Some two_topics_info) = Returns (Some fr)
    /\ In s (records fr)
    /\ topic_id s = 0
    /\ (sentiment_score s == 100 /\ positive_pct s == 100 /\ negative_pct s == 0)%Q.
Proof.
  eexists. eexists.
  assert (E : detect_narratives (num:=Q) two_topics (Some two_topics_info)
              = Returns (Some ?[fr])) by (vm_compute; reflexivity).
  split; [exact E|]. split; [right; left; reflexivity|]. split; [reflexivity|].
  apply (proj1 (homogeneous_topic_scores two_topics two_topics_info _ _ E
                  (or_intror (or_introl eq_refl)))).
  intros d [<- | [<- | [<- | [<- | []]]]]; cbn; intros Et; try reflexivity; discriminate Et.
Defined.

(** X12.  In exact arithmetic, the status [sentiment_emoji] gives a Topic
    Summary of [detect_narratives] agrees with the documents of the topic: a
    green or yellow status is given only when the topic has more POSITIVE than
    NEGATIVE documents, and a red status only when it has more NEGATIVE than
    POSITIVE ones. *)
Theorem sentiment_emoji_follows_counts (df : DataFrame) (info : TopicInfo)
  (fr : Frame (TopicSummary Q)) (s : TopicSummary Q) :
  detect_narratives df (Some info) = Returns (Some fr) ->
  In s (records fr) ->
  let p := documents_with_topic_sentiment df (topic_id s) "POSITIVE" in
  let n := documents_with_topic_sentiment df (topic_id s) "NEGATIVE" in
  (sentiment_emoji (sentiment_score s) = "🟢" \/ sentiment_emoji (sentiment_score s) = "🟡" ->
   (n < p)%nat)
  /\ (sentiment_emoji (sentiment_score s) = "🔴" -> (p < n)%nat).
Proof.
  intros Hret Hs. cbv zeta.
  pose proof (narrative_scores_consistent_aux df info fr s Hret Hs) as [Hge Hle].
  unfold sentiment_emoji. cbn [ltb of_int Number_Q].
  destruct (Qltb (inject_Z 50) (sentiment_score s)) eqn:E50.
  - apply Qltb_lt in E50. change (inject_Z 50) with 50%Q in E50. split.
    + intros _. destruct (Nat.lt_ge_cases
                            (documents_with_topic_sentiment df (topic_id s) "NEGATIVE")
                            (documents_with_topic_sentiment df (topic_id s) "POSITIVE"))
        as [|G]; [assumption|]. specialize (Hle G). lra.
    + discriminate.
  - destruct (Qltb (inject_Z 0) (sentiment_score s)) eqn:E0.
    + apply Qltb_lt in E0. change (inject_Z 0) with 0%Q in E0. split.
      * intros _. destruct (Nat.lt_ge_cases
                              (documents_with_topic_sentiment df (topic_id s) "NEGATIVE")
                              (documents_with_topic_sentiment df (topic_id s) "POSITIVE"))
          as [|G]; [assumption|]. specialize (Hle G). lra.
      * discriminate.
    + destruct (Qltb (inject_Z (-50)) (sentiment_score s)) eqn:Em.
      * split; [intros [E | E]; discriminate E | discriminate].
      * apply Qltb_ge in Em. change (inject_Z (-50)) with (-50)%Q in Em. split.
        -- intros [E | E]; discriminate E.
        -- intros _. destruct (Nat.lt_ge_cases
                                 (documents_with_topic_sentiment df (topic_id s) "POSITIVE")
                                 (documents_with_topic_sentiment df (topic_id s) "NEGATIVE"))
             as [|G]; [assumption|]. specialize (Hge G). lra.
Qed.

Lemma sentiment_emoji_follows_counts_witness :
  exists fr s,
    detect_narratives (num:=Q) two_topics (Some two_topics_info) = Returns (Some fr)
    /\ In s (records fr)
    /\ sentiment_emoji (sentiment_score s) = "🟢"
    /\ (documents_with_topic_sentiment two_topics (topic_id s) "NEGATIVE"
        < documents_with_topic_sentiment two_topics (topic_id s) "POSITIVE")%nat.
Proof.
  eexists. eexists.
  assert (E : detect_narratives (num:=Q) two_topics (Some two_topics_info)
              = Returns (Some ?[fr])) by (vm_compute; reflexivity).
  split; [exact E|]. split; [right; left; reflexivity|]. split; [reflexivity|].
  apply (proj1 (sentiment_emoji_follows_counts two_topics two_topics_info _ _ E
                  (or_intror (or_introl eq_refl)))).
  left. reflexivity.
Defined.

(** ** Further properties of the Insight Generator *)

(** X13.  Whenever [detect_narratives] returns a frame, [get_insights] called
    with it returns exactly four insights, and the fourth names a Topic
    Summary of the frame that no other summary exceeds in [document_count].
    This holds in any arithmetic. *)
Theorem top_narrative_insight (num : Type) (N : Number num) (df : DataFrame)
  (info : TopicInfo) (fr : Frame (TopicSummary num))
  (sentiment_pct emotion_pct : Series num) (mood : num) :
  detect_narratives df (Some info) = Returns (Some fr) ->
  exists i1 i2 top,
    get_insights df sentiment_pct emotion_pct mood (Some fr)
    = [i1; i2; SampleSize (List.length (rows df));
       TopNarrative (narrative top) (document_count top) (sentiment_score top)]
    /\ In top (records fr)
    /\ forall s, In s (records fr) -> (document_count s <= document_count top)%nat.
Proof.
  intros Hret.
  destruct (detect_narratives_frame num N df info fr Hret) as (_ & _ & Hne & Hsorted).
  unfold get_insights. cbv zeta.
  destruct (records fr) as [|top rest] eqn:Erec; [congruence|].
  eexists. eexists. exists top. split; [reflexivity|]. split; [now left|].
  intros s [<- | Hs]; [lia|].
  unfold sorted_desc in Hsorted. apply StronglySorted_inv in Hsorted.
  destruct Hsorted as [_ Hall]. rewrite Forall_forall in Hall. now apply Hall.
Qed.

Lemma top_narrative_insight_witness :
  exists fr,
    detect_narratives (num:=float) two_topics (Some two_topics_info) = Returns (Some fr)
    /\ List.length (get_insights two_topics [] [] 50%float (Some fr)) = 4%nat.
Proof.
  eexists.
  assert (E : detect_narratives (num:=float) two_topics (Some two_topics_info)
              = Returns (Some ?[fr])) by (vm_compute; reflexivity).
  split; [exact E|].
  destruct (top_narrative_insight float Number_float two_topics two_topics_info _
              [] [] 50%float E) as (i1 & i2 & top & Eq & _).
  rewrite Eq. reflexivity.
Defined.

Section EmotionInsight.
Context {num : Type} `{Number num}.

Lemma idxmax_fold (t : Series num) (k : string) (v : num) :
  let best := fold_left (fun acc kv => if ltb (snd acc) (snd kv) then kv else acc) t (k, v) in
  In best ((k, v) :: t) /\ snd best = series_max v t.
Proof.
  cbv zeta. unfold series_max, values. revert k v.
  induction t as [|[k' v'] t IH]; intros k v; cbn [fold_left map snd].
  - split; [now left | reflexivity].
  - destruct (ltb v v') eqn:E.
    + destruct (IH k' v') as [Hin Hsnd]. split; [|exact Hsnd].
      right. exact Hin.
    + destruct (IH k v) as [Hin Hsnd]. split; [|exact Hsnd].
      destruct Hin as [Hin | Hin]; [now left | right; now right].
Qed.

Lemma idxmax_entry (t : Series num) (k : string) (v : num) :
  In (series_idxmax k v t, series_max v t) ((k, v) :: t).
Proof.
  destruct (idxmax_fold t k v) as [Hin Hsnd]. cbv zeta in Hin, Hsnd.
  unfold series_idxmax. rewrite <- Hsnd.
  now rewrite <- surjective_pairing.
Qed.

End EmotionInsight.

(** X14.  In exact arithmetic, the second insight of [get_insights] is a
    strong emotional signal exactly when some percentage of the emotion
    Distribution exceeds 40; the signal then names an entry of the
    Distribution whose percentage no other entry exceeds, and otherwise every
    percentage is at most 40. *)
Theorem emotion_insight_dominant (df : DataFrame) (sentiment_pct emotion_pct : Series Q)
  (mood : Q) (narratives : option (Frame (TopicSummary Q))) :
  exists i1 i2 rest,
    get_insights df sentiment_pct emotion_pct mood narratives = i1 :: i2 :: rest
    /\ ((exists dominant strength,
           i2 = StrongEmotionalSignal dominant strength
           /\ In (dominant, strength) emotion_pct
           /\ (40 < strength)%Q
           /\ forall x, In x (values emotion_pct) -> (x <= strength)%Q)
        \/ (i2 = DiverseEmotions
            /\ forall x, In x (values emotion_pct) -> (x <= 40)%Q)).
Proof.
  unfold get_insights. cbv zeta. cbn [app].
  eexists. eexists. eexists. split; [reflexivity|].
  destruct emotion_pct as [|[k v] t].
  - right. cbn. split; [reflexivity | intros x []].
  - cbn [ltb Number_Q of_int].
    destruct (series_max_Q v t) as [_ Hmax].
    destruct (Qltb (inject_Z 40) (series_max v t)) eqn:E.
    + left. apply Qltb_lt in E. change (inject_Z 40) with 40%Q in E.
      exists (series_idxmax k v t), (series_max v t).
      split; [reflexivity|]. split; [apply idxmax_entry|]. split; [assumption|].
      exact Hmax.
    + right. apply Qltb_ge in E. change (inject_Z 40) with 40%Q in E.
      split; [reflexivity|]. intros x Hx.
      apply Qle_trans with (series_max v t); [now apply Hmax | assumption].
Qed.

(** ** The analytics step of the application *)

Section AnalysisLaws.
Context {num : Type} `{Number num}.

Lemma narrative_of_nil_iff (df : DataFrame) (named : bool) (row : TopicRow) :
  narrative_of (num:=num) df named row = []
  <-> Topic row = -1 \/ documents_with_topic df (Topic row) = 0%nat.
Proof.
  rewrite <- select_topic_length. unfold narrative_of. cbv zeta.
  destruct (Z.eqb_spec (Topic row) (-1)) as [E | Hne]; [tauto|].
  destruct (select_topic df (Topic row)) as [|d l]; cbn [List.length Nat.eqb].
  - tauto.
  - split; [discriminate|]. intros [E | E]; [congruence | discriminate E].
Qed.

Lemma no_summary_iff (df : DataFrame) (info : TopicInfo) :
  flat_map (narrative_of (num:=num) df (has_name info)) (topic_rows info) = []
  <-> forall row, In row (topic_rows info) ->
        Topic row = -1 \/ documents_with_topic df (Topic row) = 0%nat.
Proof.
  generalize (has_name info). intros named.
  induction (topic_rows info) as [|row l IH]; cbn [flat_map].
  - split; [intros _ row [] | reflexivity].
  - split.
    + intros E. apply app_eq_nil in E. destruct E as [E1 E2].
      intros r [<- | Hr]; [now apply (narrative_of_nil_iff df named) | now apply IH].
    + intros Hall.
      rewrite (proj2 (narrative_of_nil_iff df named row) (Hall row (or_introl eq_refl))).
      apply IH. intros r Hr. apply Hall. now right.
Qed.

End AnalysisLaws.

(** X15.  The analytics step of the application fails exactly when topics are
    enabled, the corpus has a topic column and a topic table exists in which
    every row is for topic -1 or for a topic without documents; it then
    raises [KeyError] on ["document_count"].  Whenever it returns, the
    correlation table and the narratives are both present or both absent, and
    there are four insights when the narratives are present and three
    otherwise.  This holds in any arithmetic. *)
Theorem analysis_step_outcome (num : Type) (N : Number num) (df : DataFrame)
  (enable_topics : bool) (topic_info : option TopicInfo) :
  (analysis_step (num:=num) df enable_topics topic_info = Raises (KeyError "document_count")
   <-> enable_topics = true /\ has_topic df = true
       /\ exists info, topic_info = Some info
            /\ forall row, In row (topic_rows info) ->
                 Topic row = -1 \/ documents_with_topic df (Topic row) = 0%nat)
  /\ (forall e, analysis_step (num:=num) df enable_topics topic_info = Raises e ->
        e = KeyError "document_count")
  /\ (forall a, analysis_step (num:=num) df enable_topics topic_info = Returns a ->
        (an_correlation_df a = None <-> an_narratives_df a = None)
        /\ List.length (an_insights a)
           = match an_narratives_df a with Some _ => 4%nat | None => 3%nat end).
Proof.
  unfold analysis_step. cbv zeta.
  destruct enable_topics; cbn [andb].
  2:{ split; [|split].
      - split; [discriminate|]. intros [E _]. discriminate E.
      - intros e E. discriminate E.
      - intros a E. inversion E; subst; clear E. cbn. split; [tauto | reflexivity]. }
  destruct topic_info as [info|].
  2:{ split; [|split].
      - split; [discriminate|]. intros (_ & _ & info & E & _). discriminate E.
      - intros e E. discriminate E.
      - intros a E. inversion E; subst; clear E. cbn. split; [tauto | reflexivity]. }
  destruct (has_topic df) eqn:Ht.
  2:{ assert (Ed : detect_narratives (num:=num) df (Some info) = Returns None)
        by (unfold detect_narratives; now rewrite Ht).
      rewrite Ed. split; [|split].
      - split; [discriminate|]. intros (_ & E & _). discriminate E.
      - intros e E. discriminate E.
      - intros a E. inversion E; subst; clear E. cbn [an_correlation_df an_narratives_df an_insights].
        unfold topic_emotion_correlation. rewrite Ht. cbn. split; [tauto | reflexivity]. }
  pose proof (detect_narratives_raises_iff (num:=num) df info Ht) as Hr.
  destruct (detect_narratives df (Some info)) as [[fr|] | e] eqn:Ed.
  - split; [|split].
    + split; [discriminate|]. intros (_ & _ & info' & E & Hall).
      inversion E; subst. apply no_summary_iff in Hall. apply Hr in Hall. discriminate Hall.
    + intros e E. discriminate E.
    + intros a E. inversion E; subst; clear E.
      cbn [an_correlation_df an_narratives_df an_insights].
      destruct (detect_narratives_frame num N df info fr Ed) as (_ & _ & Hne & _).
      split.
      * unfold topic_emotion_correlation. rewrite Ht. cbn [negb]. split; discriminate.
      * unfold get_insights. cbv zeta. destruct (records fr); [congruence | reflexivity].
  - exfalso. unfold detect_narratives in Ed. rewrite Ht in Ed.
    destruct (sort_values_desc _ _ _); discriminate Ed.
  - assert (Ee : e = KeyError "document_count").
    { unfold detect_narratives, sort_values_desc in Ed. rewrite Ht in Ed.
      destruct (existsb _ _); inversion Ed. reflexivity. }
    subst e. split; [|split].
    + split; [|reflexivity]. intros _. split; [reflexivity|]. split; [reflexivity|].
      exists info. split; [reflexivity|]. apply (no_summary_iff (num:=num)).
      now apply Hr.
    + intros e E. now inversion E.
    + intros a E. discriminate E.
Qed.

Lemma analysis_step_outcome_witness :
  analysis_step (num:=float) unclustered true (Some outlier_info)
  = Raises (KeyError "document_count").
Proof.
  apply (proj1 (analysis_step_outcome float Number_float unclustered true (Some outlier_info))).
  split; [reflexivity|]. split; [reflexivity|]. exists outlier_info. split; [reflexivity|].
  intros row [<- | []]. left. reflexivity.
Defined.

(** ** The pasted text of the application *)

Section PastedText.

Lemma lstrip_suffix (s : pystr) :
  exists w, s = (w ++ lstrip s)%list /\ forallb py_isspace w = true.
Proof.
  induction s as [|c t IH]; cbn [lstrip].
  - exists []. split; reflexivity.
  - destruct (py_isspace c) eqn:E.
    + destruct IH as (w & Ew & Hw). exists (c :: w). split.
      * cbn [app]. now rewrite <- Ew.
      * cbn [forallb]. now rewrite E, Hw.
    + exists []. split; reflexivity.
Qed.

Lemma lstrip_head (s : pystr) (c : codepoint) :
  hd_error (lstrip s) = Some c -> py_isspace c = false.
Proof.
  induction s as [|a t IH]; cbn [lstrip]; [discriminate|].
  destruct (py_isspace a) eqn:E; [exact IH|].
  cbn [hd_error]. intros H. inversion H; subst. exact E.
Qed.

Lemma filter_none {A} (f : A -> bool) (l : list A) :
  (forall x, In x l -> f x = false) -> filter f l = [].
Proof.
  induction l as [|a t IH]; intros Hall; cbn [filter]; [reflexivity|].
  rewrite (Hall a (or_introl eq_refl)). apply IH. intros x Hx. apply Hall. now right.
Qed.

Lemma lstrip_fixed (s : pystr) :
  (forall c, hd_error s = Some c -> py_isspace c = false) -> lstrip s = s.
Proof.
  destruct s as [|a t]; [reflexivity|]. intros Hh. cbn [lstrip].
  now rewrite (Hh a eq_refl).
Qed.

Lemma lstrip_nil_iff (s : pystr) : lstrip s = [] <-> forallb py_isspace s = true.
Proof.
  induction s as [|a t IH]; cbn [lstrip forallb]; [tauto|].
  destruct (py_isspace a); cbn [andb]; [exact IH|]. split; discriminate.
Qed.

Lemma rstrip_prefix (s : pystr) :
  exists w, s = (rstrip s ++ w)%list /\ forallb py_isspace w = true.
Proof.
  unfold rstrip. destruct (lstrip_suffix (rev s)) as (w & Ew & Hw).
  exists (rev w). split.
  - rewrite <- (rev_involutive s), Ew at 1. now rewrite rev_app_distr.
  - rewrite forallb_forall in *. intros x Hx. apply Hw. now apply in_rev.
Qed.

Lemma rstrip_last (s : pystr) (c : codepoint) :
  hd_error (rev (rstrip s)) = Some c -> py_isspace c = false.
Proof. unfold rstrip. rewrite rev_involutive. apply lstrip_head. Qed.

Lemma rstrip_fixed (s : pystr) :
  (forall c, hd_error (rev s) = Some c -> py_isspace c = false) -> rstrip s = s.
Proof.
  intros Hl. unfold rstrip. rewrite (lstrip_fixed (rev s) Hl). apply rev_involutive.
Qed.

Lemma strip_incl (s : pystr) (c : codepoint) : In c (strip s) -> In c s.
Proof.
  unfold strip. intros Hc.
  destruct (rstrip_prefix (lstrip s)) as (w & Ew & _).
  destruct (lstrip_suffix s) as (w' & Ew' & _).
  rewrite Ew'. apply in_or_app. right. rewrite Ew. apply in_or_app. now left.
Qed.

Lemma strip_nil_iff (s : pystr) : strip s = [] <-> forallb py_isspace s = true.
Proof.
  unfold strip.
  destruct (rstrip_prefix (lstrip s)) as (w & Ew & Hw).
  destruct (lstrip_suffix s) as (w' & Ew' & Hw').
  split.
  - intros E. rewrite E in Ew. cbn [app] in Ew. rewrite Ew', Ew, forallb_app, Hw', Hw. reflexivity.
  - intros Hall. assert (El : lstrip s = []) by now apply lstrip_nil_iff.
    rewrite El. reflexivity.
Qed.

Lemma strip_head (s : pystr) (c : codepoint) :
  hd_error (strip s) = Some c -> py_isspace c = false.
Proof.
  unfold strip. destruct (rstrip_prefix (lstrip s)) as (w & Ew & _).
  destruct (rstrip (lstrip s)) as [|a t] eqn:E; [discriminate|].
  cbn [hd_error]. intros H. inversion H; subst. apply (lstrip_head s).
  rewrite Ew. reflexivity.
Qed.

Lemma strip_last (s : pystr) (c : codepoint) :
  hd_error (rev (strip s)) = Some c -> py_isspace c = false.
Proof. apply rstrip_last. Qed.

Lemma strip_clean (t : pystr) : clean_text t -> strip t = t.
Proof.
  intros (_ & _ & Hh & Hl). unfold strip. rewrite (lstrip_fixed t Hh). now apply rstrip_fixed.
Qed.

Lemma split_lines_not_nil (s : pystr) : split_lines s <> [].
Proof.
  induction s as [|c t IH]; cbn [split_lines]; [discriminate|].
  destruct (c =? newline)%N; [discriminate|].
  destruct (split_lines t); [congruence | discriminate].
Qed.

Lemma split_lines_no_newline (s t : pystr) :
  In t (split_lines s) -> ~ In newline t.
Proof.
  revert t. induction s as [|c r IH]; intros t; cbn [split_lines].
  - intros [<- | []] [].
  - destruct (N.eqb_spec c newline) as [-> | Hne].
    + intros [<- | Ht]; [intros [] | now apply IH].
    + destruct (split_lines r) as [|w ws] eqn:E.
      * intros [<- | []] [Hc | []]. congruence.
      * intros [<- | Ht].
        -- intros [Hc | Hw]; [congruence|]. apply (IH w); [now left | assumption].
        -- apply IH. now right.
Qed.

(** Every character of the text that is not a newline is on one of its
    lines, and every character of a line is in the text. *)
Lemma split_lines_chars (s : pystr) (c : codepoint) :
  c <> newline -> (In c s <-> exists t, In t (split_lines s) /\ In c t).
Proof.
  intros Hc. induction s as [|a r IH]; cbn [split_lines].
  - split; [intros [] | intros (t & [<- | []] & [])].
  - destruct (N.eqb_spec a newline) as [-> | Hne].
    + split.
      * intros [E | Hin]; [congruence|]. apply IH in Hin. destruct Hin as (t & Ht & Hct).
        exists t. split; [now right | assumption].
      * intros (t & [<- | Ht] & Hct); [destruct Hct|]. right. apply IH. now exists t.
    + destruct (split_lines r) as [|w ws] eqn:E; [now destruct (split_lines_not_nil r)|].
      split.
      * intros [<- | Hin].
        -- exists (a :: w). split; now left.
        -- apply IH in Hin. destruct Hin as (t & [Et | Ht] & Hct).
           ++ subst t. exists (a :: w). split; [now left | now right].
           ++ exists t. split; [now right | assumption].
      * intros (t & [<- | Ht] & Hct).
        -- destruct Hct as [<- | Hct]; [now left|]. right. apply IH. exists w. split; [now left | assumption].
        -- right. apply IH. exists t. split; [now right | assumption].
Qed.

Lemma split_lines_line (t : pystr) : ~ In newline t -> split_lines t = [t].
Proof.
  induction t as [|c r IH]; intros Hn; cbn [split_lines]; [reflexivity|].
  destruct (N.eqb_spec c newline) as [-> | _]; [exfalso; apply Hn; now left|].
  rewrite IH by (intros Hin; apply Hn; now right). reflexivity.
Qed.

Lemma split_lines_app (t r : pystr) :
  ~ In newline t -> split_lines (t ++ newline :: r)%list = t :: split_lines r.
Proof.
  induction t as [|c u IH]; intros Hn; cbn [app split_lines].
  - rewrite N.eqb_refl. reflexivity.
  - destruct (N.eqb_spec c newline) as [-> | _]; [exfalso; apply Hn; now left|].
    rewrite IH by (intros Hin; apply Hn; now right). reflexivity.
Qed.

Lemma split_join_lines (texts : list pystr) :
  texts <> [] -> (forall t, In t texts -> ~ In newline t) ->
  split_lines (join_lines texts) = texts.
Proof.
  induction texts as [|t rest IH]; intros Hne Hall; [congruence|].
  destruct rest as [|t' rest'].
  - cbn [join_lines]. apply split_lines_line, Hall. now left.
  - change (join_lines (t :: t' :: rest')) with (t ++ newline :: join_lines (t' :: rest'))%list.
    rewrite split_lines_app by (apply Hall; now left).
    f_equal. apply IH; [discriminate|]. intros u Hu. apply Hall. now right.
Qed.

Lemma newline_is_space : py_isspace newline = true.
Proof. reflexivity. Qed.

End PastedText.

(** X16.  For every pasted text, the texts the application extracts from it
    are not empty, contain no newline and have no whitespace at either end;
    and no text is extracted, so that the analysis cannot be started, exactly
    when the pasted text consists of whitespace only. *)
Theorem paste_texts_clean (raw_text : pystr) :
  (forall t, In t (paste_texts raw_text) -> clean_text t)
  /\ (paste_texts raw_text = [] <-> forallb py_isspace raw_text = true).
Proof.
  split.
  - intros t Ht. unfold paste_texts in Ht. apply in_map_iff in Ht.
    destruct Ht as (line & <- & Hline). apply filter_In in Hline.
    destruct Hline as [Hline Hne]. repeat split.
    + intros E. rewrite E in Hne. discriminate Hne.
    + intros Hin. apply strip_incl in Hin. now apply (split_lines_no_newline raw_text line).
    + apply strip_head.
    + apply strip_last.
  - unfold paste_texts. split.
    + intros E. apply map_eq_nil in E. apply forallb_forall. intros c Hc.
      destruct (py_isspace c) eqn:Ec; [reflexivity|exfalso].
      assert (Hn : c <> newline) by (intros ->; rewrite newline_is_space in Ec; discriminate).
      apply (split_lines_chars raw_text c Hn) in Hc. destruct Hc as (t & Ht & Hct).
      assert (Hf : In t (filter (fun t => negb (is_empty (strip t))) (split_lines raw_text))).
      { apply filter_In. split; [assumption|].
        destruct (strip t) eqn:Es; [|reflexivity].
        apply strip_nil_iff in Es. rewrite forallb_forall in Es.
        rewrite (Es c Hct) in Ec. discriminate Ec. }
      rewrite E in Hf. destruct Hf.
    + intros Hall. rewrite forallb_forall in Hall.
      rewrite filter_none; [reflexivity|]. intros t Ht.
      assert (Es : strip t = []).
      { apply strip_nil_iff, forallb_forall. intros c Hc. apply Hall.
        assert (Hn : c <> newline).
        { intros ->. now apply (split_lines_no_newline raw_text t). }
        apply (split_lines_chars raw_text c Hn). now exists t. }
      now rewrite Es.
Qed.

Lemma paste_texts_clean_witness :
  paste_texts [32; 10; 9; 32]%N = [].
Proof.
  apply (proj2 (paste_texts_clean [32; 10; 9; 32]%N)). reflexivity.
Defined.

(** X17.  Typing texts that are not empty, on one line each and without
    whitespace at either end, one per line, gives the application back
    exactly these texts, in their order. *)
Theorem paste_texts_round_trip (texts : list pystr) :
  (forall t, In t texts -> clean_text t) ->
  paste_texts (join_lines texts) = texts.
Proof.
  intros Hall. destruct texts as [|t0 rest]; [reflexivity|].
  unfold paste_texts. rewrite split_join_lines.
  - set (l := t0 :: rest) in *. clearbody l.
    induction l as [|t l IH]; [reflexivity|]. cbn [filter].
    rewrite (strip_clean t) by (apply Hall; now left).
    destruct (Hall t (or_introl eq_refl)) as (Hne & _).
    destruct t as [|c u]; [congruence|]. cbn [is_empty negb map].
    rewrite (strip_clean (c :: u)) by (apply Hall; now left).
    f_equal. apply IH. intros x Hx. apply Hall. now right.
  - discriminate.
  - intros t Ht. now destruct (Hall t Ht) as (_ & Hn & _).
Qed.

Lemma paste_texts_round_trip_witness :
  paste_texts (join_lines [[72; 105]; [111; 32; 107]]%N) = [[72; 105]; [111; 32; 107]]%N.
Proof.
  apply (paste_texts_round_trip [[72; 105]; [111; 32; 107]]%N).
  intros t [<- | [<- | []]]; repeat split; try discriminate.
  - intros [E | [E | []]]; discriminate E.
  - intros c E; inversion E; reflexivity.
  - intros c E; inversion E; reflexivity.
  - intros [E | [E | [E | []]]]; discriminate E.
  - intros c E; inversion E; reflexivity.
  - intros c E; inversion E; reflexivity.
Defined.

(** ** The topic model of the NLP engine *)

Section TopicEngineLaws.
Variables Model Text Info Word Prob Err : Type.
Variable new_model : nat -> Model.
Variable fit_transform : Model -> list Text -> Model * (list Z * list Prob + Err).

Lemma after_calls_snoc (calls : list (FitCall Text)) (call : FitCall Text) :
  after_calls new_model fit_transform (calls ++ [call])%list
  = fst (fit_topics new_model fit_transform (after_calls new_model fit_transform calls)
           (fst call) (snd call)).
Proof. unfold after_calls. now rewrite fold_left_app. Qed.

Lemma fit_topics_state (self : Engine Model) (call : FitCall Text) :
  let self' := fst (fit_topics new_model fit_transform self (fst call) (snd call)) in
  (attempts call = false -> self' = self)
  /\ (attempts call = true ->
      topic_model self' = Some (fst (fit_transform (new_model (snd call)) (fst call)))
      /\ topics_fitted self'
         = (topics_fitted self || succeeds new_model fit_transform call)).
Proof.
  cbv zeta. unfold fit_topics, succeeds, attempts.
  destruct (List.length (fst call) <? snd call)%nat; cbn [negb andb fst snd].
  - split; [reflexivity | discriminate].
  - split; [discriminate|]. intros _.
    destruct (fit_transform (new_model (snd call)) (fst call)) as [m [[topics probs] | f]];
      cbn [fst snd topic_model topics_fitted].
    + split; [reflexivity|]. now destruct (topics_fitted self).
    + split; [reflexivity|]. now destruct (topics_fitted self).
Qed.

Lemma fitted_has_model (calls : list (FitCall Text)) :
  topics_fitted (after_calls new_model fit_transform calls) = true ->
  topic_model (after_calls new_model fit_transform calls) <> None.
Proof.
  induction calls as [|call calls IH] using rev_ind; [discriminate|].
  rewrite after_calls_snoc.
  destruct (fit_topics_state (after_calls new_model fit_transform calls) call) as [Hno Hyes].
  cbv zeta in Hno, Hyes.
  destruct (attempts call) eqn:Ea.
  - destruct (Hyes eq_refl) as [-> _]. discriminate.
  - rewrite (Hno eq_refl). exact IH.
Qed.

Lemma fitted_iff_succeeded (calls : list (FitCall Text)) :
  topics_fitted (after_calls new_model fit_transform calls)
  = existsb (succeeds new_model fit_transform) calls.
Proof.
  induction calls as [|call calls IH] using rev_ind; [reflexivity|].
  rewrite after_calls_snoc, existsb_app. cbn [existsb]. rewrite orb_false_r, <- IH.
  destruct (fit_topics_state (after_calls new_model fit_transform calls) call) as [Hno Hyes].
  cbv zeta in Hno, Hyes.
  destruct (attempts call) eqn:Ea.
  - now destruct (Hyes eq_refl) as [_ ->].
  - rewrite (Hno eq_refl). unfold succeeds. rewrite Ea. cbn [andb]. now rewrite orb_false_r.
Qed.

End TopicEngineLaws.

(** X18.  After [__init__] and any sequence of calls of [fit_topics],
    whatever the topic library returns or raises, [topics_fitted] is set only
    when [topic_model] holds a model; hence [get_topic_info],
    [get_topic_words] and [get_document_topic] never fail by reading an
    attribute of [None]. *)
Theorem topic_getters_never_read_none
  (Model Text Info Word Prob Err : Type) (new_model : nat -> Model)
  (fit_transform : Model -> list Text -> Model * (list Z * list Prob + Err))
  (model_get_topic_info : Model -> Info + Err)
  (model_get_topic : Model -> Z -> list Word + Err)
  (model_transform : Model -> list Text -> list Z * list Prob + Err)
  (calls : list (FitCall Text)) (topic_id : Z) (top_n : nat) (text : Text) :
  let self := after_calls new_model fit_transform calls in
  (topics_fitted self = true -> topic_model self <> None)
  /\ get_topic_info model_get_topic_info self <> Failed NoneTypeError
  /\ get_topic_words model_get_topic self topic_id top_n <> Failed NoneTypeError
  /\ get_document_topic model_transform self text <> Failed NoneTypeError.
Proof.
  cbv zeta.
  pose proof (fitted_has_model Model Text Prob Err new_model fit_transform calls) as Inv.
  split; [exact Inv|].
  unfold get_topic_info, get_topic_words, get_document_topic.
  destruct (topics_fitted (after_calls new_model fit_transform calls)); cbn [negb].
  - specialize (Inv eq_refl).
    destruct (topic_model (after_calls new_model fit_transform calls)) as [m|]; [|congruence].
    split; [|split].
    + destruct (model_get_topic_info m); discriminate.
    + destruct (model_get_topic m topic_id); discriminate.
    + destruct (model_transform m [text]) as [[[|t0 ts] prob] | e]; discriminate.
  - repeat split; discriminate.
Qed.

(** X19.  After [__init__] and any sequence of calls of [fit_topics]:
    [topics_fitted] is set exactly when some call got past the size check and
    the library fitted its model, and it is never reset; as long as no call
    has done so, [get_topic_info] returns [None], [get_topic_words] returns
    the empty list and [get_document_topic] returns [(-1, 0.0)] without
    consulting the library. *)
Theorem topics_fitted_iff_some_fit_succeeded
  (Model Text Info Word Prob Err : Type) (new_model : nat -> Model)
  (fit_transform : Model -> list Text -> Model * (list Z * list Prob + Err))
  (model_get_topic_info : Model -> Info + Err)
  (model_get_topic : Model -> Z -> list Word + Err)
  (model_transform : Model -> list Text -> list Z * list Prob + Err)
  (calls : list (FitCall Text)) (topic_id : Z) (top_n : nat) (text : Text) :
  let self := after_calls new_model fit_transform calls in
  topics_fitted self = existsb (succeeds new_model fit_transform) calls
  /\ (forall more,
        topics_fitted self = true ->
        topics_fitted (after_calls new_model fit_transform (calls ++ more)%list) = true)
  /\ (existsb (succeeds new_model fit_transform) calls = false ->
      get_topic_info model_get_topic_info self = Done None
      /\ get_topic_words model_get_topic self topic_id top_n = Done []
      /\ get_document_topic model_transform self text = Done (-1, ZeroProb)).
Proof.
  cbv zeta.
  pose proof (fitted_iff_succeeded Model Text Prob Err new_model fit_transform) as F.
  split; [apply F|]. split.
  - intros more. rewrite !F, existsb_app. intros ->. reflexivity.
  - intros E. unfold get_topic_info, get_topic_words, get_document_topic.
    rewrite F, E. cbn [negb]. repeat split.
Qed.

Lemma topics_fitted_iff_some_fit_succeeded_witness :
  get_topic_info (Model:=unit) (Info:=unit) (Err:=unit) (fun _ => inl tt)
    (after_calls (Text:=unit) (Prob:=unit) (fun _ => tt) (fun m _ => (m, inr tt))
       [([tt], 5%nat); ([tt; tt], 1%nat)])
  = Done None.
Proof.
  apply (proj2 (proj2 (topics_fitted_iff_some_fit_succeeded unit unit unit unit unit unit
                         (fun _ => tt) (fun m _ => (m, inr tt)) (fun _ => inl tt)
                         (fun _ _ => inl []) (fun _ _ => inl ([], []))
                         [([tt], 5%nat); ([tt; tt], 1%nat)] 0 0%nat tt))).
  reflexivity.
Defined.

Lemma topic_getters_never_read_none_witness :
  topic_model
    (after_calls (Model:=unit) (Text:=unit) (Prob:=unit) (Err:=unit)
       (fun _ => tt) (fun m _ => (m, inl ([0], [tt]))) [([tt; tt], 1%nat)])
  <> None.
Proof.
  apply (proj1 (topic_getters_never_read_none unit unit unit unit unit unit
                  (fun _ => tt) (fun m _ => (m, inl ([0], [tt]))) (fun _ => inl tt)
                  (fun _ _ => inl []) (fun _ _ => inl ([], []))
                  [([tt; tt], 1%nat)] 0 0%nat tt)).
  reflexivity.
Defined.
